(* ===== verification/_CoqProject ===== *)
-Q . S2P
Prelude.v
Items.v
Slots.v
Text.v
Account.v
Inventory.v
Rng.v
Player.v
Mining.v
Shop.v
Session.v
