(* ===== verification/Prelude.v ===== *)
(** * Textcraft: a verification development

    This library models the Rust program [text_craft] (files under
    [src/src/]) and proves what makes it correct.  The program is a
    single-player text game: an [Account] (name, money, pickaxe level)
    and an [Inventory] (20 ore slots, 6 food slots) form a [Player]
    together with a transient health and depth; a mining action draws
    random numbers to go deeper, lose health and find ores; a shop
    sells ores and buys food and pickaxe upgrades; two line-oriented
    text files store the accounts and the inventories.

    ** Parts of the program and the files that model them

    - [Prelude] (this file): the shared vocabulary.  Rust's [Result]
      as [Result]; a computation that may panic as [Outcome] with its
      bind notation [let! x := c in k] in [craft_scope]; unsigned
      machine integers of width [w] kept as [Z] with Rust's debug-build
      arithmetic: [add_u] panics on overflow (the program is built and
      run with [cargo run], whose profile has overflow checks on),
      [overflowing_sub] is [u8::overflowing_sub]; the [Ltac] [case_z]
      that splits the boolean comparisons of the code; the hint
      database [craft].
    - [Items]: [Ore] and [Food] ([src/src/inventory/mod.rs]) with
      their [to_string]/[from_string] token maps.
    - [Slots]: the fixed-capacity slot arrays of the inventory as
      lists of options (length 20 and 6 as an invariant), with the
      first-free-slot loop [push_first_free], [has_free], [clear_all].
    - [Text]: the standard-library text routines the code calls,
      written out: [str::split], [str::trim], [FromStr] for [u32],
      [u8] and [i32], decimal [Display], [BufRead::lines], and the
      menu choice [choice.trim().parse::<i32>().unwrap_or(-1)]
      ([read_choice]).
    - [Account]: [src/src/account/mod.rs], the record, [new_account],
      [parse_account_string], [parse_account_file] (a file is
      [option string], [None] when it cannot be opened) and
      [update_account_file].
    - [Inventory]: [src/src/inventory/mod.rs], the record,
      [push_food], [push_ore], [parse_inventory_string],
      [search_inventory_file] and the line printer.
    - [Rng]: the random source the program reads through [rand]:
      an interface ([Class Rng]) with its range law [RngLaws], and a
      tape instance that replays given draws.  Every theorem about
      the game is proved for any instance.
    - [Player]: [src/src/player/mod.rs], every method of [Player],
      [update_inventory_file] and the ore draw [mine].
    - [Mining]: [dig], [try_starting_event], [go_mining] and
      [eat_food] of [src/src/main.rs], the menu loops as a step
      function [mining_step] over input lines.
    - [Shop]: [go_shopping], [sell_ores_menu], [buy_item_menu] of
      [src/src/main.rs], likewise as [shop_step].
    - [Session]: [main], [register_menu], [login_menu], [play_game]
      and [wait_for_enter]: the whole program as [session_step] over
      input lines, which calls [mining_step] and [shop_step] for the
      player being played, [load_players] at the start and [save]
      after each cycle of [main]; [reachable] is the step relation's
      reachability from a successful load.

    Each menu loop of the code reads one line per iteration; a state
    records which loop (and which [wait_for_enter]) the program is in,
    so one line of input is one step.  At the end of input Rust's
    [read_line] returns an empty string, so a run on a finite list of
    lines stops in whatever state the last line leaves.

    ** The theorems

    - Invariants: every [Player] method keeps [player_wf] (widths,
      health in [0,100], depth in [1,255], slot counts); so do the
      mining and shop loops; every session [main] reaches keeps every
      player well-formed and plays an index within the roster
      ([Session.main_session_ok], by rule induction on [reachable]).
    - Functional behaviour on every branch: [spend], [take_damage]
      (saturating through [overflowing_sub]), [heal] (capped, and the
      [u8] overflow panic), [eat] (slots 1..6, heals 10/30/40),
      [upgrade_pickaxe], [sell_all], [parse_account_string] (fields
      read as reference decimals, defaults 0 and 1),
      [buy_step] (no money is taken without the item), the roster sort
      (ordered, a permutation, stable).
    - Distributions: [mine] per pickaxe level counted over the 100
      draws, [dig]'s events counted over all draw triples; [dig]
      refines the event chain of its three draws.
    - Round trips: account lines and the account file (write then
      read), the save/reload of [main], inventory lines.
    - Error and safety behaviour: parse errors, full slot arrays, the
      depth overflow after 255 descents, the owner name read as an
      item token, the prefix lookup of inventories, menus that never
      leave at end of input, the empty username.

    Bounds and fuel: [show_uint] uses [Z.log2 n + 1] digits as fuel,
    which is enough for every [n >= 0] ([show_uint_fuel]); every loop
    of the program is modelled as a step over one input line, so no
    other fuel is needed, and [run_*] recurse on the input list.

    ** What is not modelled

    Printing of menus ([println!], [print_ores], [print_food],
    [unsafe_stdout_flush]) has no effect on the state and is not
    modelled; reading stdin is the list of lines; file I/O errors
    other than a missing file are not modelled (a file is its text).
    [char::is_alphanumeric] and [str::trim] are modelled on ASCII
    only: strings are byte strings here.  [PartialEq for Player]
    (by username) is never called by the program.
*)

From stdpp Require Export base list strings decidable.
From Stdlib Require Export ZArith Lia.

Declare Scope craft_scope.
Delimit Scope craft_scope with craft.

(** ** Rust's [Result<A, E>] *)

Inductive Result (A E : Type) : Type :=
| Ok (a : A)
| Err (e : E).
Arguments Ok {A E} a.
Arguments Err {A E} e.

(** ** I/O errors

    The files are modelled as [option string]: [None] is a file that
    does not exist, on which [File::open] fails. *)

Inductive IoError : Type :=
| FileNotFound.

(** ** Panics and computations that may panic *)

(** The ways the modelled code can abort: integer overflow in a debug
    build, an [unwrap] of [None]/[Err], an out-of-bounds index. *)
Inductive Panic : Type :=
| ArithOverflow
| UnwrapFailed
| IndexOutOfBounds.

Inductive Outcome (A : Type) : Type :=
| Returns (a : A)
| Panics (p : Panic).
Arguments Returns {A} a.
Arguments Panics {A} p.

Definition outcome_bind {A B} (c : Outcome A) (k : A -> Outcome B) : Outcome B :=
  match c with
  | Returns a => k a
  | Panics p => Panics p
  end.

Definition outcome_map {A B} (f : A -> B) (c : Outcome A) : Outcome B :=
  outcome_bind c (fun a => Returns (f a)).

Notation "'let!' x ':=' c 'in' k" := (outcome_bind c (fun x => k))
  (at level 10, x name, c at level 100, k at level 200) : craft_scope.

Open Scope craft_scope.

(** ** Unsigned machine integers of width [w], kept as [Z] *)

Definition uint_max (w : Z) : Z := 2 ^ w - 1.

(** [z] is a value of type [u<w>]. *)
Definition fits (w z : Z) : bool := (0 <=? z)%Z && (z <=? uint_max w)%Z.

(** [a + b] on [u<w>] in a build with overflow checks. *)
Definition add_u (w a b : Z) : Outcome Z :=
  if (a + b <=? uint_max w)%Z then Returns (a + b)%Z else Panics ArithOverflow.

(** [a - b] on [u<w>] in a build with overflow checks. *)
Definition sub_u (a b : Z) : Outcome Z :=
  if (b <=? a)%Z then Returns (a - b)%Z else Panics ArithOverflow.

(** [u<w>::overflowing_sub]: the wrapped difference and the borrow flag. *)
Definition overflowing_sub (w a b : Z) : Z * bool :=
  (((a - b) mod 2 ^ w)%Z, (a <? b)%Z).

(** ** Proof automation *)

Create HintDb craft discriminated.
Create Rewrite HintDb craft.

(** Split every boolean comparison on [Z] in the goal and hypotheses. *)
Ltac case_z :=
  rewrite ?Z.gtb_ltb, ?Z.geb_leb in *;
  repeat match goal with
  | |- context [Z.leb ?a ?b] => destruct (Z.leb_spec a b)
  | |- context [Z.ltb ?a ?b] => destruct (Z.ltb_spec a b)
  | |- context [Z.eqb ?a ?b] => destruct (Z.eqb_spec a b)
  | H : context [Z.leb ?a ?b] |- _ => destruct (Z.leb_spec a b)
  | H : context [Z.ltb ?a ?b] |- _ => destruct (Z.ltb_spec a b)
  | H : context [Z.eqb ?a ?b] |- _ => destruct (Z.eqb_spec a b)
  end.

(** Close a closed goal made of conjunctions of equalities and
    comparisons on concrete values, by evaluation. *)
Ltac solve_concrete :=
  repeat split; vm_compute; first [reflexivity | intros ?; discriminate | done].

(** ** Generic lemmas *)

Lemma fits_spec w z : fits w z = true <-> (0 <= z <= uint_max w)%Z.
Proof. unfold fits. rewrite andb_true_iff, Z.leb_le, Z.leb_le. lia. Qed.

Lemma add_u_ok w a b : (a + b <= uint_max w)%Z -> add_u w a b = Returns (a + b)%Z.
Proof. intros H. unfold add_u. case_z; [done | lia]. Qed.

Lemma add_u_overflow w a b : (uint_max w < a + b)%Z -> add_u w a b = Panics ArithOverflow.
Proof. intros H. unfold add_u. case_z; [lia | done]. Qed.

Lemma sub_u_ok a b : (b <= a)%Z -> sub_u a b = Returns (a - b)%Z.
Proof. intros H. unfold sub_u. case_z; [done | lia]. Qed.

Lemma overflowing_sub_in_range w a b :
  (0 <= w)%Z -> (0 <= b <= a)%Z -> (a <= uint_max w)%Z -> overflowing_sub w a b = ((a - b)%Z, false).
Proof.
  intros Hw Hb Ha. unfold overflowing_sub, uint_max in *.
  rewrite Z.mod_small by lia. case_z; [lia | done].
Qed.

Lemma overflowing_sub_borrow w a b : (a < b)%Z -> snd (overflowing_sub w a b) = true.
Proof. intros H. unfold overflowing_sub. simpl. case_z; [done | lia]. Qed.

Lemma outcome_bind_returns {A B} (a : A) (k : A -> Outcome B) :
  outcome_bind (Returns a) k = k a.
Proof. reflexivity. Qed.

Lemma outcome_bind_panics {A B} (p : Panic) (k : A -> Outcome B) :
  outcome_bind (Panics p) k = Panics p.
Proof. reflexivity. Qed.

#[export] Hint Rewrite @outcome_bind_returns @outcome_bind_panics : craft.
#[export] Hint Resolve add_u_ok sub_u_ok : craft.

Lemma uint_max_8 : uint_max 8 = 255%Z.
Proof. reflexivity. Qed.

Lemma uint_max_32 : uint_max 32 = 4294967295%Z.
Proof. reflexivity. Qed.

#[export] Hint Rewrite uint_max_8 uint_max_32 : craft.
