(* ===== verification/Items.v ===== *)
(** * Items: the ore and food kinds of [src/src/inventory/mod.rs]

    [Ore] and [Food] are the two enums of the inventory module, with
    the token maps [Ore::to_string]/[Ore::from_string] and
    [Food::to_string]/[Food::from_string] used for display and for the
    inventory file.  The lemmas show that the tokens round-trip and
    that the two token sets are disjoint, which the inventory parser
    (it tries [Food::from_string] first) relies on. *)

From S2P Require Import Prelude.
From stdpp Require Import finite.

Inductive Ore : Type :=
| IronOre
| GoldOre
| Diamond.

Inductive Food : Type :=
| Apple
| Chicken
| Beef.

#[export] Instance Ore_eq_dec : EqDecision Ore.
Proof. solve_decision. Defined.

#[export] Instance Food_eq_dec : EqDecision Food.
Proof. solve_decision. Defined.

#[export] Instance Ore_finite : Finite Ore.
Proof.
  refine {| enum := [IronOre; GoldOre; Diamond] |}.
  - apply (bool_decide_unpack (NoDup [IronOre; GoldOre; Diamond])). by vm_compute.
  - intros []; apply (bool_decide_unpack (_ ∈ [IronOre; GoldOre; Diamond])); by vm_compute.
Defined.

#[export] Instance Food_finite : Finite Food.
Proof.
  refine {| enum := [Apple; Chicken; Beef] |}.
  - apply (bool_decide_unpack (NoDup [Apple; Chicken; Beef])). by vm_compute.
  - intros []; apply (bool_decide_unpack (_ ∈ [Apple; Chicken; Beef])); by vm_compute.
Defined.

(** [Food::to_string] *)
Definition Food_to_string (f : Food) : string :=
  match f with
  | Apple => "Apple"
  | Chicken => "Chicken"
  | Beef => "Beef"
  end.

(** [Food::from_string]: a [match] on the string literals. *)
Definition Food_from_string (s : string) : option Food :=
  if String.eqb s "Apple" then Some Apple
  else if String.eqb s "Chicken" then Some Chicken
  else if String.eqb s "Beef" then Some Beef
  else None.

(** [Ore::to_string] *)
Definition Ore_to_string (o : Ore) : string :=
  match o with
  | IronOre => "Iron Ore"
  | GoldOre => "Gold Ore"
  | Diamond => "Diamond"
  end.

(** [Ore::from_string] *)
Definition Ore_from_string (s : string) : option Ore :=
  if String.eqb s "Iron Ore" then Some IronOre
  else if String.eqb s "Gold Ore" then Some GoldOre
  else if String.eqb s "Diamond" then Some Diamond
  else None.

(** The ore tokens, as a list. *)
Definition ore_tokens : list string := map Ore_to_string (enum Ore).

(** ** Token lemmas *)

Lemma Ore_from_to o : Ore_from_string (Ore_to_string o) = Some o.
Proof. by destruct o. Qed.

Lemma Food_from_to f : Food_from_string (Food_to_string f) = Some f.
Proof. by destruct f. Qed.

(** Split the string comparisons of a token match. *)
Ltac token_cases :=
  repeat match goal with
  | H : String.eqb _ _ = true |- _ => apply String.eqb_eq in H; subst
  | |- context [String.eqb ?s ?t] => destruct (String.eqb s t) eqn:?
  end.

Lemma Ore_to_from s o : Ore_from_string s = Some o -> Ore_to_string o = s.
Proof. unfold Ore_from_string. token_cases; intros; simplify_eq; done. Qed.

Lemma Food_to_from s f : Food_from_string s = Some f -> Food_to_string f = s.
Proof. unfold Food_from_string. token_cases; intros; simplify_eq; done. Qed.

(** No ore token is a food token. *)
Lemma Food_from_Ore_to_string o : Food_from_string (Ore_to_string o) = None.
Proof. by destruct o. Qed.

Lemma Ore_from_string_None s : s ∉ ore_tokens -> Ore_from_string s = None.
Proof.
  intros Hs. destruct (Ore_from_string s) as [o|] eqn:E; [| done].
  apply Ore_to_from in E. subst. exfalso. apply Hs.
  unfold ore_tokens. apply list_elem_of_fmap. exists o. split; [done | apply elem_of_enum].
Qed.

#[export] Hint Rewrite Ore_from_to Food_from_to Food_from_Ore_to_string : craft.
