(* ===== verification/Slots.v ===== *)
(** * Slots: fixed-capacity arrays of optional items

    The inventory of [src/src/inventory/mod.rs] holds its ores in
    [[Option<Ore>; 20]] and its foods in [[Option<Food>; 6]].  An array
    is a [list (option A)] whose length is the capacity.  This file
    holds the generic operations the inventory and the player apply to
    such an array, each the loop of the source:
    - [push_first_free]: the body of [push_food]/[push_ore], a scan in
      index order that fills the first [None] and breaks;
    - [has_free]: [foods.iter().any(|&x| x.is_none())] of [buy_item_menu];
    - [clear_all]: [for ore in &mut ores { *ore = None }] of
      [purge_inventory];
    - [occupied]: the occupied slots in index order, as the inventory
      printer [update_inventory_file] visits them.
    The lemmas give the functional behaviour of [push_first_free]
    (insert at the first free index, no effect when full), the
    preservation of the capacity, and the packing invariant [packed]
    (every occupied slot before every free one), under which the
    occupied slots are exactly the items in insertion order. *)

From S2P Require Import Prelude.

Section Slots.
Context {A : Type}.
Implicit Types (x : A) (l : list (option A)).

(** [Option::is_none] *)
Definition is_none (o : option A) : bool :=
  match o with
  | None => true
  | Some _ => false
  end.

(** [for i in 0..len { if s[i].is_none() { s[i] = Some(x); break; } }] *)
Fixpoint push_first_free x l : list (option A) :=
  match l with
  | [] => []
  | None :: rest => Some x :: rest
  | Some y :: rest => Some y :: push_first_free x rest
  end.

(** [s.iter().any(|&x| x.is_none())] *)
Definition has_free l : bool := existsb is_none l.

(** [for o in &mut s { *o = None }] *)
Definition clear_all l : list (option A) := map (fun _ => None) l.

(** The occupied slots, in index order. *)
Fixpoint occupied l : list A :=
  match l with
  | [] => []
  | Some y :: rest => y :: occupied rest
  | None :: rest => occupied rest
  end.

(** The index of the first free slot. *)
Fixpoint first_free l : option nat :=
  match l with
  | [] => None
  | None :: _ => Some 0%nat
  | Some _ :: rest => S <$> first_free rest
  end.

(** Every occupied slot comes before every free slot. *)
Fixpoint packed l : bool :=
  match l with
  | [] => true
  | Some _ :: rest => packed rest
  | None :: rest => forallb is_none rest
  end.

(** Pushing the items [xs] one after the other, as a parser loop does. *)
Definition push_all (xs : list A) l : list (option A) :=
  fold_left (fun acc x => push_first_free x acc) xs l.

(** ** Lemmas *)

Lemma length_push_first_free x l : length (push_first_free x l) = length l.
Proof. induction l as [|[y|] l IH]; simpl; auto. Qed.

Lemma length_clear_all l : length (clear_all l) = length l.
Proof. apply length_map. Qed.

Lemma has_free_first_free l : has_free l = false <-> first_free l = None.
Proof.
  unfold has_free. induction l as [|[y|] l IH]; simpl; [done | | split; discriminate].
  rewrite IH. destruct (first_free l); simpl; split; congruence.
Qed.

(** No free slot: the insertion has no effect. *)
Lemma push_first_free_full x l : has_free l = false -> push_first_free x l = l.
Proof.
  induction l as [|[y|] l IH]; simpl; [done | | done].
  unfold has_free in *. simpl. intros H. by rewrite IH.
Qed.

(** C18: The slot loop of [push_food] and [push_ore] writes the item
    at the first free index and nowhere else, and changes nothing when
    no slot is free. *)
Lemma push_first_free_spec x l :
  push_first_free x l =
    match first_free l with
    | Some i => <[i := Some x]> l
    | None => l
    end.
Proof.
  induction l as [|[y|] l IH]; simpl; [done | | done].
  rewrite IH. by destruct (first_free l).
Qed.

Lemma first_free_lookup l i : first_free l = Some i -> l !! i = Some None.
Proof.
  revert i. induction l as [|[y|] l IH]; intros i; simpl; [done | | by intros [= <-]].
  destruct (first_free l) eqn:E; simpl; [| done]. intros [= <-]. by apply IH.
Qed.

Lemma first_free_before l i j : first_free l = Some i -> (j < i)%nat -> is_Some (mjoin (l !! j)).
Proof.
  revert i j. induction l as [|[y|] l IH]; intros i j; simpl; [done | | intros [= <-]; lia].
  destruct (first_free l) eqn:E; simpl; [| done]. intros [= <-] Hj.
  destruct j as [|j]; simpl; [by eexists |]. apply (IH n); [done | lia].
Qed.

Lemma length_occupied_le l : (length (occupied l) <= length l)%nat.
Proof. induction l as [|[y|] l IH]; simpl; lia. Qed.

Lemma has_free_occupied l : has_free l = false -> length (occupied l) = length l.
Proof.
  unfold has_free. induction l as [|[y|] l IH]; simpl; [done | | done].
  intros H. by rewrite IH.
Qed.

Lemma occupied_push_first_free_count x l :
  has_free l = true -> length (occupied (push_first_free x l)) = S (length (occupied l)).
Proof.
  unfold has_free. induction l as [|[y|] l IH]; simpl; [done | | done].
  intros H. by rewrite IH.
Qed.

Lemma occupied_clear_all l : occupied (clear_all l) = [].
Proof. induction l; simpl; auto. Qed.

Lemma packed_clear_all l : packed (clear_all l) = true.
Proof.
  destruct l as [|o l]; [done |]. simpl.
  apply forallb_forall. intros o' Ho'. unfold clear_all in Ho'.
  apply in_map_iff in Ho' as (? & <- & _). done.
Qed.

Lemma packed_free_tail l : forallb is_none l = true -> packed l = true.
Proof. destruct l as [|[y|] l]; simpl; [done | done | by intros ->]. Qed.

Lemma packed_push_first_free x l : packed l = true -> packed (push_first_free x l) = true.
Proof.
  induction l as [|[y|] l IH]; simpl; [done | done |].
  apply packed_free_tail.
Qed.

Lemma occupied_free_tail l : forallb is_none l = true -> occupied l = [].
Proof.
  induction l as [|[y|] l IH]; simpl; [done | done |]. done.
Qed.

(** On a packed array with a free slot, the new item comes last. *)
Lemma occupied_push_first_free x l :
  packed l = true -> has_free l = true -> occupied (push_first_free x l) = occupied l ++ [x].
Proof.
  unfold has_free. induction l as [|[y|] l IH]; simpl; [done | |].
  - intros Hp Hf. by rewrite IH.
  - intros Hp _. by rewrite (occupied_free_tail l Hp).
Qed.

Lemma all_free_replicate l : forallb is_none l = true -> l = replicate (length l) None.
Proof. induction l as [|[y|] l IH]; simpl; [done | done |]. intros H. by rewrite <- IH. Qed.

(** A packed array is its items followed by free slots. *)
Lemma packed_shape l :
  packed l = true -> l = (Some <$> occupied l) ++ replicate (length l - length (occupied l)) None.
Proof.
  induction l as [|[y|] l IH]; simpl; [done | |].
  - intros Hp. rewrite <- IH at 1 by done. done.
  - intros Hp. rewrite (occupied_free_tail l Hp). simpl. rewrite ?Nat.sub_0_r.
    f_equal. by apply all_free_replicate.
Qed.
Lemma length_push_all xs l : length (push_all xs l) = length l.
Proof.
  revert l. induction xs as [|x xs IH]; intros l; simpl; [done |].
  by rewrite IH, length_push_first_free.
Qed.

Lemma packed_push_all xs l : packed l = true -> packed (push_all xs l) = true.
Proof.
  revert l. induction xs as [|x xs IH]; intros l Hp; simpl; [done |].
  by apply IH, packed_push_first_free.
Qed.

(** Into a packed array, [push_all] keeps the first items that fit. *)
Lemma occupied_push_all xs l :
  packed l = true -> occupied (push_all xs l) = take (length l) (occupied l ++ xs).
Proof.
  revert l. induction xs as [|x xs IH]; intros l Hp; simpl.
  - rewrite app_nil_r, take_ge; [done | apply length_occupied_le].
  - rewrite IH by (by apply packed_push_first_free).
    rewrite length_push_first_free.
    destruct (has_free l) eqn:Hf.
    + by rewrite occupied_push_first_free, <- app_assoc.
    + rewrite push_first_free_full by done.
      rewrite <- (has_free_occupied l Hf), !take_app_length. done.
Qed.
Lemma occupied_replicate_None n : occupied (replicate n None) = [].
Proof. induction n; simpl; auto. Qed.

Lemma packed_replicate_None n : packed (replicate n None) = true.
Proof.
  destruct n as [|n]; [done |]. simpl. apply forallb_forall.
  intros o Ho. apply list_elem_of_In, elem_of_replicate in Ho as [-> _]. done.
Qed.

(** A packed array is determined by its length and its items. *)
Lemma packed_ext l1 l2 :
  packed l1 = true -> packed l2 = true -> length l1 = length l2 -> occupied l1 = occupied l2 -> l1 = l2.
Proof.
  intros H1 H2 Hlen Hocc. rewrite (packed_shape l1 H1), (packed_shape l2 H2). by rewrite Hlen, Hocc.
Qed.

(** Filling an empty array of capacity [n] with at most [n] items. *)
Lemma push_all_empty xs n :
  (length xs <= n)%nat -> push_all xs (replicate n None) = (Some <$> xs) ++ replicate (n - length xs) None.
Proof.
  intros Hn. pose proof (packed_replicate_None n) as Hp.
  rewrite (packed_shape (push_all xs (replicate n None))) by (by apply packed_push_all).
  rewrite occupied_push_all, occupied_replicate_None, length_push_all, length_replicate by done.
  simpl. rewrite take_ge by lia. done.
Qed.
End Slots.

#[export] Hint Rewrite @length_push_first_free @length_clear_all @occupied_clear_all : craft.
#[export] Hint Resolve packed_push_first_free packed_clear_all : craft.
