(* ===== verification/Text.v ===== *)
(** * Text: the standard-library string routines the program calls

    The account and inventory files are read and written with
    [str::split], [str::trim], [str::parse::<u32>] / [::<u8>],
    [BufRead::lines] and the decimal [Display] of integers inside
    [format!].  Their behaviour decides what the files round-trip, so
    they are written out here, each after the standard library's
    algorithm:
    - [split_char c s]: [s.split(c)], every piece including empty ones;
    - [trim]: [str::trim] on the ASCII white-space characters
      (9 to 13 and 32; the multi-byte Unicode spaces are not modelled);
    - [parse_uint w s]: [<u<w> as FromStr>::from_str], an optional
      leading [+], then decimal digits with an overflow check per digit;
    - [show_uint n]: the decimal [Display] of a non-negative integer;
    - [lines]: [BufRead::lines], pieces between ['\n'], the final empty
      piece dropped, one ['\r'] removed before each ['\n'].
    [decimal_spec] is a reference reading of the decimals [from_str]
    accepts, stated on the digit list without the loop; [parse_uint_spec]
    shows the digit loop computes it.  [parse_uint_show]: printing a
    value of [u<w>] and parsing it back gives the value. *)

From S2P Require Import Prelude.
From Stdlib Require Import Ascii.

Local Open Scope Z_scope.

(** ** [str::split] on one character *)

Fixpoint split_char (c : ascii) (s : string) : list string :=
  match s with
  | EmptyString => [EmptyString]
  | String a rest =>
      if Ascii.eqb a c then EmptyString :: split_char c rest
      else match split_char c rest with
           | [] => [String a EmptyString]
           | t :: ts => String a t :: ts
           end
  end.

(** [c] does not occur in [s]. *)
Fixpoint char_free (c : ascii) (s : string) : bool :=
  match s with
  | EmptyString => true
  | String a rest => negb (Ascii.eqb a c) && char_free c rest
  end.

(** ** [str::trim] *)

Definition is_whitespace (a : ascii) : bool :=
  let n := nat_of_ascii a in ((9 <=? n)%nat && (n <=? 13)%nat) || (n =? 32)%nat.

Fixpoint trim_start (s : string) : string :=
  match s with
  | EmptyString => EmptyString
  | String a rest => if is_whitespace a then trim_start rest else s
  end.

Fixpoint trim_end (s : string) : string :=
  match s with
  | EmptyString => EmptyString
  | String a rest =>
      let rest' := trim_end rest in
      if is_whitespace a && String.eqb rest' EmptyString then EmptyString else String a rest'
  end.

Definition trim (s : string) : string := trim_end (trim_start s).

(** ** [<u<w> as FromStr>::from_str] *)

Definition digit_value (a : ascii) : option Z :=
  let n := Z.of_nat (nat_of_ascii a) in
  if (48 <=? n) && (n <=? 57) then Some (n - 48) else None.

(** The digit loop: [result = result.checked_mul(10)?.checked_add(d)?]. *)
Fixpoint parse_digits (max acc : Z) (s : string) : option Z :=
  match s with
  | EmptyString => Some acc
  | String a rest =>
      match digit_value a with
      | None => None
      | Some d => if acc * 10 + d <=? max then parse_digits max (acc * 10 + d) rest else None
      end
  end.

(** An empty string, a lone sign, a ['-'] or a non-digit is an error. *)
Definition parse_uint (w : Z) (s : string) : option Z :=
  match s with
  | EmptyString => None
  | String a rest =>
      if Ascii.eqb a "+"%char then
        match rest with
        | EmptyString => None
        | _ => parse_digits (uint_max w) 0 rest
        end
      else parse_digits (uint_max w) 0 s
  end.

(** [<i32 as FromStr>::from_str]: a leading [-] accumulates downwards,
    so the magnitude may reach [2^31]. *)
Definition parse_i32 (s : string) : option Z :=
  match s with
  | EmptyString => None
  | String a rest =>
      if Ascii.eqb a "+"%char then
        match rest with
        | EmptyString => None
        | _ => parse_digits (2 ^ 31 - 1) 0 rest
        end
      else if Ascii.eqb a "-"%char then
        match rest with
        | EmptyString => None
        | _ => option_map Z.opp (parse_digits (2 ^ 31) 0 rest)
        end
      else parse_digits (2 ^ 31 - 1) 0 s
  end.

(** A menu choice: [choice.trim().parse::<i32>().unwrap_or(-1)]. *)
Definition read_choice (line : string) : Z :=
  match parse_i32 (trim line) with
  | Some n => n
  | None => -1
  end.

(** ** Decimal [Display] *)

Definition digit_char (d : Z) : ascii := ascii_of_nat (Z.to_nat (48 + d)).

(** The decimal digits of [n], most significant first, with fuel. *)
Fixpoint digits_of (fuel : nat) (n : Z) : list Z :=
  match fuel with
  | O => []
  | S f => if n <? 10 then [n] else digits_of f (n / 10) ++ [n mod 10]
  end.

Definition string_of_digits (ds : list Z) : string :=
  fold_right (fun d s => String (digit_char d) s) EmptyString ds.

(** One digit per bit is enough fuel: [n < 2 ^ (log2 n + 1) <= 10 ^ (log2 n + 1)]. *)
Definition show_uint (n : Z) : string :=
  string_of_digits (digits_of (S (Z.to_nat (Z.log2 n))) n).

(** ** [BufRead::lines] *)

(** [if buf.ends_with('\r') { buf.pop(); }] *)
Fixpoint strip_cr (s : string) : string :=
  match s with
  | EmptyString => EmptyString
  | String a EmptyString => if Ascii.eqb a "013"%char then EmptyString else s
  | String a rest => String a (strip_cr rest)
  end.

(** The pieces between newlines; each piece that ended with a newline
    loses one carriage return; a last empty piece is no line. *)
Fixpoint lines_of (pieces : list string) : list string :=
  match pieces with
  | [] => []
  | [p] => if String.eqb p EmptyString then [] else [p]
  | p :: ps => strip_cr p :: lines_of ps
  end.

Definition lines (s : string) : list string := lines_of (split_char "010"%char s).

(** No white-space character in [s]. *)
Fixpoint no_ws (s : string) : bool :=
  match s with
  | EmptyString => true
  | String a rest => negb (is_whitespace a) && no_ws rest
  end.

(** A text line: no newline and no carriage return in it. *)
Definition line_ok (l : string) : bool := char_free "010"%char l && char_free "013"%char l.

(** The text of lines each followed by a newline, as [write_all] leaves it. *)
Definition unlines (ls : list string) : string :=
  fold_right (fun l acc => String.append l (String "010"%char acc)) EmptyString ls.

(** ** Lemmas: decimal digits *)

Definition digits_value (acc : Z) (ds : list Z) : Z := fold_left (fun a d => a * 10 + d) ds acc.

Definition is_digit (d : Z) : Prop := 0 <= d <= 9.

(** The digits of [s], when every character of it is an ASCII digit. *)
Fixpoint string_digits (s : string) : option (list Z) :=
  match s with
  | EmptyString => Some []
  | String a rest =>
      match digit_value a, string_digits rest with
      | Some d, Some ds => Some (d :: ds)
      | _, _ => None
      end
  end.

(** A reference reading of what [u<w>::from_str] accepts, stated
    without the digit loop: an optional ['+'], then at least one digit,
    the value at most [2^w - 1]. *)
Definition decimal_spec (w : Z) (s : string) : option Z :=
  let body := match s with
              | String a rest => if Ascii.eqb a "+"%char then rest else s
              | EmptyString => s
              end in
  match string_digits body with
  | Some (d :: ds) =>
      let v := digits_value 0 (d :: ds) in
      if v <=? uint_max w then Some v else None
  | _ => None
  end.

Lemma digits_value_app acc ds d : digits_value acc (ds ++ [d]) = digits_value acc ds * 10 + d.
Proof. unfold digits_value. by rewrite fold_left_app. Qed.

Lemma digits_of_S f n :
  digits_of (S f) n = if n <? 10 then [n] else digits_of f (n / 10) ++ [n mod 10].
Proof. reflexivity. Qed.

Lemma digits_of_spec f n :
  0 <= n < 10 ^ Z.of_nat (S f) -> Forall is_digit (digits_of (S f) n) /\ digits_value 0 (digits_of (S f) n) = n.
Proof.
  revert n. induction f as [|f IH]; intros n Hn; rewrite digits_of_S; case_z.
  - split; [repeat constructor; unfold is_digit; lia | done].
  - rewrite Nat2Z.inj_succ in Hn. simpl in Hn. lia.
  - split; [repeat constructor; unfold is_digit; lia | done].
  - destruct (IH (n / 10)) as [Hd Hv].
    { rewrite Nat2Z.inj_succ, Z.pow_succ_r in Hn by lia. split; [apply Z.div_pos; lia | apply Z.div_lt_upper_bound; lia]. }
    split.
    + apply Forall_app; split; [done | repeat constructor; unfold is_digit; pose proof (Z.mod_pos_bound n 10); lia].
    + rewrite digits_value_app, Hv. pose proof (Z.div_mod n 10). lia.
Qed.

Lemma digits_of_S_nonempty f n : [] = digits_of (S f) n -> False.
Proof. rewrite digits_of_S. case_z; [done |]. intros Heq. by apply app_cons_not_nil in Heq. Qed.

Lemma show_uint_fuel n : 0 <= n -> n < 10 ^ Z.of_nat (S (Z.to_nat (Z.log2 n))).
Proof.
  intros Hn. rewrite Nat2Z.inj_succ, Z2Nat.id by apply Z.log2_nonneg.
  destruct (Z.eq_dec n 0) as [->|Hn0]; [done |].
  apply Z.lt_le_trans with (2 ^ Z.succ (Z.log2 n)).
  - apply Z.log2_spec. lia.
  - apply Z.pow_le_mono_l. split; [lia | lia].
Qed.

Lemma digit_value_char d : is_digit d -> digit_value (digit_char d) = Some d.
Proof.
  unfold is_digit. intros Hd.
  assert (d = 0 \/ d = 1 \/ d = 2 \/ d = 3 \/ d = 4 \/ d = 5 \/ d = 6 \/ d = 7 \/ d = 8 \/ d = 9) by lia.
  destruct_or!; subst; reflexivity.
Qed.

Lemma digits_value_ge acc ds : 0 <= acc -> Forall is_digit ds -> acc <= digits_value acc ds.
Proof.
  unfold is_digit. revert acc. induction ds as [|d ds IH]; intros acc Ha Hds; simpl; [lia |].
  inversion Hds as [|? ? Hd Hds']; subst. unfold is_digit in Hd.
  specialize (IH (acc * 10 + d) ltac:(lia) Hds'). lia.
Qed.

Lemma parse_digits_of max acc ds :
  0 <= acc -> Forall is_digit ds -> digits_value acc ds <= max ->
  parse_digits max acc (string_of_digits ds) = Some (digits_value acc ds).
Proof.
  revert acc. induction ds as [|d ds IH]; intros acc Ha Hds Hmax; [done |].
  inversion Hds as [|? ? Hd Hds']; subst.
  change (digits_value acc (d :: ds)) with (digits_value (acc * 10 + d) ds) in *.
  simpl. rewrite digit_value_char by done.
  pose proof Hd as Hd'. unfold is_digit in Hd'.
  pose proof (digits_value_ge (acc * 10 + d) ds ltac:(lia) Hds') as Hge.
  case_z; [apply IH; auto; lia |]. exfalso. lia.
Qed.

(** Printing a value of [u<w>] and parsing it back gives the value. *)
Lemma parse_uint_show w n : 0 <= n <= uint_max w -> parse_uint w (show_uint n) = Some n.
Proof.
  intros Hn. unfold show_uint.
  destruct (digits_of_spec (Z.to_nat (Z.log2 n)) n) as [Hd Hv]; [split; [lia | apply show_uint_fuel; lia] |].
  remember (digits_of _ n) as ds eqn:Eds.
  destruct ds as [|d ds]; [by apply digits_of_S_nonempty in Eds |]. clear Eds.
  inversion Hd as [|? ? Hd0 _]; subst.
  assert (Ascii.eqb (digit_char d) "+"%char = false) as Hplus.
  { unfold is_digit in Hd0.
    assert (d = 0 \/ d = 1 \/ d = 2 \/ d = 3 \/ d = 4 \/ d = 5 \/ d = 6 \/ d = 7 \/ d = 8 \/ d = 9) by lia.
    destruct_or!; subst; reflexivity. }
  simpl string_of_digits. unfold parse_uint. rewrite Hplus.
  change (String _ _) with (string_of_digits (d :: ds)).
  rewrite parse_digits_of; [done | lia | done | lia].
Qed.

(** ** Lemmas: trimming, splitting and lines *)

Lemma trim_no_ws s : no_ws s = true -> trim s = s.
Proof.
  intros H. unfold trim.
  assert (trim_start s = s) as ->.
  { destruct s as [|a r]; simpl in *; [done |]. apply andb_true_iff in H as [H _]. by destruct (is_whitespace a). }
  induction s as [|a r IH]; simpl in *; [done |].
  apply andb_true_iff in H as [Ha Hr]. rewrite IH by done. by destruct (is_whitespace a).
Qed.

Lemma digit_char_cases d : is_digit d -> exists k, (k < 10)%nat /\ digit_char d = ascii_of_nat (48 + k).
Proof.
  unfold is_digit, digit_char. intros Hd. exists (Z.to_nat d). split; [lia |]. f_equal. lia.
Qed.

Lemma no_ws_digits ds : Forall is_digit ds -> no_ws (string_of_digits ds) = true.
Proof.
  induction 1 as [|d ds Hd _ IH]; simpl; [done |]. rewrite IH, andb_true_r.
  destruct (digit_char_cases d Hd) as (k & Hk & ->).
  do 10 (destruct k as [|k]; [done |]). lia.
Qed.

Lemma char_free_digits c ds : digit_value c = None -> Forall is_digit ds -> char_free c (string_of_digits ds) = true.
Proof.
  intros Hc. induction 1 as [|d ds Hd _ IH]; simpl; [done |]. rewrite IH, andb_true_r.
  destruct (Ascii.eqb_spec (digit_char d) c) as [<-|]; [| done].
  by rewrite digit_value_char in Hc.
Qed.

Lemma show_uint_digits n : 0 <= n -> Forall is_digit (digits_of (S (Z.to_nat (Z.log2 n))) n).
Proof. intros Hn. apply digits_of_spec. split; [lia | by apply show_uint_fuel]. Qed.

Lemma trim_show_uint n : 0 <= n -> trim (show_uint n) = show_uint n.
Proof. intros Hn. apply trim_no_ws, no_ws_digits, show_uint_digits, Hn. Qed.

Lemma char_free_show_uint c n : digit_value c = None -> 0 <= n -> char_free c (show_uint n) = true.
Proof. intros Hc Hn. apply char_free_digits, show_uint_digits; done. Qed.

Lemma char_free_app c s1 s2 : char_free c (String.append s1 s2) = char_free c s1 && char_free c s2.
Proof. induction s1 as [|a r IH]; simpl; [done |]. by rewrite IH, andb_assoc. Qed.

Lemma split_char_nonempty c s : split_char c s <> [].
Proof. induction s as [|a r IH]; simpl; [done |]. destruct (Ascii.eqb a c); [done |]. by destruct (split_char c r). Qed.

Lemma split_char_free c s : char_free c s = true -> split_char c s = [s].
Proof.
  induction s as [|a r IH]; simpl; [done |].
  intros [Ha Hr]%andb_true_iff. apply negb_true_iff in Ha. by rewrite Ha, IH.
Qed.

Lemma split_char_app c s1 s2 :
  char_free c s1 = true -> split_char c (String.append s1 (String c s2)) = s1 :: split_char c s2.
Proof.
  induction s1 as [|a r IH]; simpl.
  - by rewrite Ascii.eqb_refl.
  - intros [Ha Hr]%andb_true_iff. apply negb_true_iff in Ha. by rewrite Ha, IH.
Qed.

Lemma strip_cr_free s : char_free "013"%char s = true -> strip_cr s = s.
Proof.
  induction s as [|a r IH]; simpl; [done |].
  intros [Ha Hr]%andb_true_iff. apply negb_true_iff in Ha.
  destruct r as [|b r']; [by rewrite Ha |]. by rewrite IH.
Qed.

Lemma line_ok_app s1 s2 : line_ok (String.append s1 s2) = line_ok s1 && line_ok s2.
Proof.
  unfold line_ok. rewrite !char_free_app.
  destruct (char_free _ s1), (char_free _ s2), (char_free _ s1), (char_free _ s2); done.
Qed.

Lemma line_ok_sep a s :
  Ascii.eqb a "010"%char = false -> Ascii.eqb a "013"%char = false -> line_ok (String a s) = line_ok s.
Proof. unfold line_ok. simpl. intros -> ->. reflexivity. Qed.

#[export] Hint Rewrite line_ok_app : craft.

Lemma prefix_app s1 s2 t : String.prefix s1 s2 = true -> String.prefix s1 (String.append s2 t) = true.
Proof.
  revert s2. induction s1 as [|a r IH]; intros [|b r2] H; simpl in *.
  - by destruct t.
  - by destruct t.
  - discriminate.
  - destruct (ascii_dec a b); [by apply IH | done].
Qed.

Lemma prefix_refl s : String.prefix s s = true.
Proof. induction s as [|a r IH]; simpl; [done |]. destruct (ascii_dec a a); [done | congruence]. Qed.

(** [BufRead::lines] gives back the lines that were written. *)
Lemma lines_unlines ls : Forall (fun l => line_ok l = true) ls -> lines (unlines ls) = ls.
Proof.
  unfold lines. induction 1 as [|l ls Hl _ IH]; simpl; [done |].
  apply andb_true_iff in Hl as [Hn Hr].
  rewrite split_char_app by done.
  destruct (split_char "010"%char (unlines ls)) eqn:E; [by apply split_char_nonempty in E |].
  rewrite <- IH. simpl. by rewrite strip_cr_free.
Qed.

(** ** Lemmas: [parse_uint] against the reference reading *)

Lemma digit_value_range a d : digit_value a = Some d -> is_digit d.
Proof.
  unfold digit_value, is_digit. case_z; simpl; intros Hv; [| done..].
  injection Hv as <-. lia.
Qed.

Lemma string_digits_range s ds : string_digits s = Some ds -> Forall is_digit ds.
Proof.
  revert ds. induction s as [|a rest IH]; intros ds; simpl; [by intros [= <-] |].
  destruct (digit_value a) as [d|] eqn:Ea, (string_digits rest) as [ds'|]; intros; simplify_eq.
  constructor; [by eapply digit_value_range | by apply IH].
Qed.

Lemma parse_digits_spec max acc s :
  0 <= acc <= max ->
  parse_digits max acc s =
  match string_digits s with
  | Some ds => if digits_value acc ds <=? max then Some (digits_value acc ds) else None
  | None => None
  end.
Proof.
  revert acc. induction s as [|a rest IH]; intros acc Ha; simpl; [case_z; [done | lia] |].
  destruct (digit_value a) as [d|] eqn:Ea; [| done].
  pose proof (digit_value_range a d Ea) as Hd. unfold is_digit in Hd.
  destruct (string_digits rest) as [ds|] eqn:Er.
  - change (digits_value acc (d :: ds)) with (digits_value (acc * 10 + d) ds).
    pose proof (digits_value_ge (acc * 10 + d) ds ltac:(lia) (string_digits_range rest ds Er)).
    destruct (Z.leb_spec (acc * 10 + d) max); [by rewrite IH by lia |].
    destruct (Z.leb_spec (digits_value (acc * 10 + d) ds) max); [lia | done].
  - destruct (Z.leb_spec (acc * 10 + d) max); [rewrite IH by lia |]; done.
Qed.

Lemma parse_digits_nonempty max a rest :
  0 <= max ->
  parse_digits max 0 (String a rest) =
  match string_digits (String a rest) with
  | Some (d :: ds) => if digits_value 0 (d :: ds) <=? max then Some (digits_value 0 (d :: ds)) else None
  | _ => None
  end.
Proof.
  intros Hmax. rewrite parse_digits_spec by lia. simpl.
  destruct (digit_value a), (string_digits rest); reflexivity.
Qed.

(** The digit loop of [from_str] reads exactly the reference decimals. *)
Lemma parse_uint_spec w s : 0 <= w -> parse_uint w s = decimal_spec w s.
Proof.
  intros Hw. assert (0 <= uint_max w) by (unfold uint_max; pose proof (Z.pow_pos_nonneg 2 w); lia).
  unfold parse_uint, decimal_spec. destruct s as [|a rest]; [done |].
  destruct (Ascii.eqb a "+"%char); [| by apply parse_digits_nonempty].
  destruct rest as [|b rest]; [done | by apply parse_digits_nonempty].
Qed.

