(* ===== verification/Account.v ===== *)
(** * Account: [src/src/account/mod.rs]

    The [Account] record (name, money as [u32], pickaxe level as [u8]),
    its constructor [new_account], the line parser
    [parse_account_string], the file reader [parse_account_file] and the
    file writer [update_account_file].  A file is its text, [None] when
    it does not exist.

    The theorems: the parse of a three-field line field by field, with
    the numbers read as the reference decimals of [Text.decimal_spec]
    and the tolerant defaults ([0] money, level [1]); a parsed account
    always holds values of the field types; the parser's rejection of a line without exactly three fields; and the
    round trip: writing accounts whose names contain no comma or line
    break and reading the file back gives the same accounts. *)

From S2P Require Import Prelude Text.
From Stdlib Require Import Ascii.

Local Open Scope Z_scope.

Record Account : Type := mkAccount {
  username : string;
  money : Z;          (** [u32] *)
  pickaxe_level : Z   (** [u8] *)
}.

#[export] Instance Account_eq_dec : EqDecision Account.
Proof. solve_decision. Defined.

(** [Account::new_account] *)
Definition new_account (name : string) : Account :=
  {| username := name; money := 100; pickaxe_level := 1 |}.

(** [unwrap_or] of the standard library, on [Option]. *)
Definition unwrap_or {A} (o : option A) (d : A) : A :=
  match o with
  | Some a => a
  | None => d
  end.

(** [parse_account_string]: three comma-separated fields; the numbers
    are trimmed and parsed, with [0] and [1] when they do not parse. *)
Definition parse_account_string (line : string) : Result Account string :=
  match split_char ","%char line with
  | [t0; t1; t2] =>
      Ok {| username := t0;
            money := unwrap_or (parse_uint 32 (trim t1)) 0;
            pickaxe_level := unwrap_or (parse_uint 8 (trim t2)) 1 |}
  | _ => Err "Invalid number of tokens"%string
  end.

(** [parse_account_file]: every line that parses, in file order. *)
Definition parse_account_file (file : option string) : Result (list Account) IoError :=
  match file with
  | None => Err FileNotFound
  | Some text =>
      Ok (omap (fun l => match parse_account_string l with
                         | Ok a => Some a
                         | Err _ => None
                         end) (lines text))
  end.

(** The line [format!("{},{},{}", username, money, pickaxe_level)]. *)
Definition account_line (a : Account) : string :=
  String.append (username a)
    (String ","%char (String.append (show_uint (money a))
                        (String ","%char (show_uint (pickaxe_level a))))).

(** [update_account_file]: the file is truncated and each account
    written as its line and a newline. *)
Definition update_account_file (accounts : list Account) : string :=
  unlines (map account_line accounts).

(** ** Type invariant *)

(** The fields hold values of their Rust types. *)
Definition account_wf (a : Account) : Prop :=
  0 <= money a <= uint_max 32 /\ 0 <= pickaxe_level a <= uint_max 8.

(** An account that the file format can carry. *)
Definition storable (a : Account) : bool :=
  char_free ","%char (username a) && line_ok (username a) &&
  fits 32 (money a) && fits 8 (pickaxe_level a).

(** ** Lemmas *)

Lemma parse_digits_bound max acc s v :
  0 <= acc <= max -> parse_digits max acc s = Some v -> 0 <= v <= max.
Proof.
  revert acc. induction s as [|a r IH]; intros acc Hacc; simpl; [by intros [= <-] |].
  unfold digit_value. case_z; simpl; try done; case_z; try done. apply IH. lia.
Qed.

Lemma parse_uint_bound w s v : 0 <= w -> parse_uint w s = Some v -> 0 <= v <= uint_max w.
Proof.
  intros Hw. assert (0 <= uint_max w) by (unfold uint_max; pose proof (Z.pow_pos_nonneg 2 w); lia).
  destruct s as [|a r]; unfold parse_uint; [done |].
  destruct (Ascii.eqb a "+"%char); [destruct r |]; try done;
    apply parse_digits_bound; lia.
Qed.

Lemma unwrap_or_parse_bound w s d :
  0 <= w -> 0 <= d <= uint_max w -> 0 <= unwrap_or (parse_uint w s) d <= uint_max w.
Proof.
  intros Hw Hd. destruct (parse_uint w s) eqn:E; simpl; [| done].
  by apply (parse_uint_bound w s).
Qed.

Lemma storable_spec a :
  storable a = true <->
  char_free ","%char (username a) = true /\ line_ok (username a) = true /\ account_wf a.
Proof.
  unfold storable, account_wf. rewrite !andb_true_iff, !fits_spec. tauto.
Qed.

(** Digits are not separators. *)
Lemma digit_value_separators :
  digit_value ","%char = None /\ digit_value ";"%char = None /\
  digit_value "010"%char = None /\ digit_value "013"%char = None.
Proof. repeat split; reflexivity. Qed.

Lemma line_ok_show_uint n : 0 <= n -> line_ok (show_uint n) = true.
Proof.
  intros Hn. unfold line_ok. destruct digit_value_separators as (_ & _ & Hnl & Hcr).
  by rewrite !char_free_show_uint.
Qed.


Lemma char_free_comma_show_uint n : 0 <= n -> char_free ","%char (show_uint n) = true.
Proof. apply char_free_show_uint. reflexivity. Qed.

Lemma line_ok_account_line a : storable a = true -> line_ok (account_line a) = true.
Proof.
  intros (_ & Hl & (Hm & _) & (Hp & _))%storable_spec.
  unfold account_line. rewrite line_ok_app, line_ok_sep, line_ok_app, line_ok_sep by done.
  rewrite Hl, !line_ok_show_uint by lia. reflexivity.
Qed.

(** ** Theorems *)

Lemma parsed_account_wf line a :
  parse_account_string line = Ok a -> account_wf a.
Proof.
  unfold parse_account_string, account_wf.
  destruct (split_char _ line) as [|t0 [|t1 [|t2 [|]]]]; try done.
  intros [= <-]. simpl. split; apply unwrap_or_parse_bound; done.
Qed.

(** C22: A line of three comma-free fields [name,f1,f2] parses to the
    account named [name] (untrimmed), whose money is [f1] trimmed and
    read as a decimal (an optional ['+'], at least one digit, at most
    [2^32 - 1]) or [0] when it is not one, and whose pickaxe level is
    [f2] read likewise within [u8], or [1]. *)
Theorem parse_account_string_fields name f1 f2 :
  char_free ","%char name = true -> char_free ","%char f1 = true -> char_free ","%char f2 = true ->
  parse_account_string (String.append name (String ","%char (String.append f1 (String ","%char f2)))) =
  Ok {| username := name;
        money := match decimal_spec 32 (trim f1) with Some v => v | None => 0 end;
        pickaxe_level := match decimal_spec 8 (trim f2) with Some v => v | None => 1 end |}.
Proof.
  intros Hn H1 H2. unfold parse_account_string.
  rewrite split_char_app, split_char_app, split_char_free by done.
  rewrite !parse_uint_spec by lia. reflexivity.
Qed.

(** C23: A line without exactly three comma-separated fields is
    rejected with the error "Invalid number of tokens". *)
Theorem parse_account_string_arity line :
  length (split_char ","%char line) <> 3%nat ->
  parse_account_string line = Err "Invalid number of tokens"%string.
Proof.
  unfold parse_account_string.
  destruct (split_char _ line) as [|t0 [|t1 [|t2 [|]]]]; simpl; done.
Qed.

(** Parsing the line that [update_account_file] writes for an
    account gives back the account, when its name has no comma or line
    break and its fields hold values of their types. *)
Theorem parse_account_line a : storable a = true -> parse_account_string (account_line a) = Ok a.
Proof.
  intros Hs. pose proof Hs as (Hc & _ & (Hm & Hp))%storable_spec.
  destruct a as [u m p]; simpl in *. unfold parse_account_string, account_line; simpl.
  rewrite split_char_app by done.
  rewrite split_char_app by (apply char_free_comma_show_uint; lia).
  rewrite split_char_free by (apply char_free_comma_show_uint; lia).
  rewrite !trim_show_uint by lia. rewrite !parse_uint_show by lia. reflexivity.
Qed.

Lemma account_file_roundtrip accounts :
  Forall (fun a => storable a = true) accounts ->
  parse_account_file (Some (update_account_file accounts)) = Ok accounts.
Proof.
  intros Hall. unfold parse_account_file, update_account_file.
  rewrite lines_unlines.
  - f_equal. induction Hall as [|a accs Ha _ IH]; simpl in *; [done |].
    rewrite parse_account_line by done. simpl. by f_equal.
  - apply Forall_map. revert Hall. apply Forall_impl. intros a. apply line_ok_account_line.
Qed.

(** C14: Writing a list of storable accounts with [update_account_file]
    and reading the file back with [parse_account_file] gives the same
    accounts in the same order. *)
Theorem parse_account_file_roundtrip accounts :
  Forall (fun a => storable a = true) accounts ->
  parse_account_file (Some (update_account_file accounts)) = Ok accounts.
Proof. apply account_file_roundtrip. Qed.

(** A missing account file is an error of [parse_account_file]. *)
Example parse_account_file_missing : parse_account_file None = Err FileNotFound.
Proof. reflexivity. Qed.

(** ** Witnesses *)

Definition steve : Account := {| username := "steve"; money := 250; pickaxe_level := 2 |}.

Lemma parse_account_string_fields_witness :
  (char_free ","%char "alex" = true /\ char_free ","%char " 250 " = true /\ char_free ","%char "x7" = true) /\
  parse_account_string "alex, 250 ,x7" = Ok {| username := "alex"; money := 250; pickaxe_level := 1 |}.
Proof.
  split; [repeat split |].
  apply (parse_account_string_fields "alex" " 250 " "x7"); reflexivity.
Defined.

Lemma parse_account_string_arity_witness :
  length (split_char ","%char "alex,10") <> 3%nat /\
  parse_account_string "alex,10" = Err "Invalid number of tokens"%string.
Proof. split; [vm_compute; discriminate | apply parse_account_string_arity; vm_compute; discriminate]. Defined.

Lemma parse_account_line_witness :
  storable steve = true /\ parse_account_string (account_line steve) = Ok steve.
Proof. split; [reflexivity | apply parse_account_line; reflexivity]. Defined.

Lemma parse_account_file_roundtrip_witness :
  Forall (fun a => storable a = true) [steve; new_account "alex"] /\
  parse_account_file (Some (update_account_file [steve; new_account "alex"])) = Ok [steve; new_account "alex"].
Proof.
  assert (Forall (fun a => storable a = true) [steve; new_account "alex"]) as H
    by (repeat constructor).
  split; [exact H | apply parse_account_file_roundtrip, H].
Defined.
