(* ===== verification/Inventory.v ===== *)
(** * Inventory: [src/src/inventory/mod.rs]

    The [Inventory] record holds the ore array [[Option<Ore>; 20]] and
    the food array [[Option<Food>; 6]] as lists of options of those
    lengths ([inventory_wf]).  The operations are [create_empty],
    [push_food], [push_ore], the line parser [parse_inventory_string]
    (one [Food::from_string]/[Ore::from_string] attempt per
    [;]-separated token, the owner's name included), the line printer
    of [update_inventory_file] (the name, then one token per occupied
    ore slot; foods are not written), and the lookup
    [search_inventory_file] (the first line that starts with the
    name).

    The theorems: insertion keeps the capacities (its effect, and its
    no-op on a full array, are [push_first_free_spec] of [Slots]);
    the ore array stays packed; reading back a written line gives the
    ores and empty food slots when the owner's name is not itself an
    item token; and the two looseness results of the
    format: a player named like an item gains that item on every load,
    and a name that is a prefix of an earlier name reads that player's
    inventory. *)

From S2P Require Import Prelude Items Slots Text.
From Stdlib Require Import Ascii.

Record Inventory : Type := mkInventory {
  ores : list (option Ore);     (** [[Option<Ore>; 20]] *)
  foods : list (option Food)    (** [[Option<Food>; 6]] *)
}.

#[export] Instance Inventory_eq_dec : EqDecision Inventory.
Proof. solve_decision. Defined.

Definition ORE_SLOTS : nat := 20.
Definition FOOD_SLOTS : nat := 6.

(** [Inventory::create_empty] *)
Definition create_empty : Inventory :=
  {| ores := replicate ORE_SLOTS None; foods := replicate FOOD_SLOTS None |}.

(** [Inventory::push_food] *)
Definition push_food (f : Food) (inv : Inventory) : Inventory :=
  {| ores := ores inv; foods := push_first_free f (foods inv) |}.

(** [Inventory::push_ore] *)
Definition push_ore (o : Ore) (inv : Inventory) : Inventory :=
  {| ores := push_first_free o (ores inv); foods := foods inv |}.

(** The body of the token loop of [parse_inventory_string]. *)
Definition parse_token (inv : Inventory) (token : string) : Inventory :=
  match Food_from_string token with
  | Some f => push_food f inv
  | None =>
      match Ore_from_string token with
      | Some o => push_ore o inv
      | None => inv
      end
  end.

(** [parse_inventory_string]: every token of the line, the first one
    (the owner's name) included, is tried as a food, then as an ore. *)
Definition parse_inventory_string (line : string) : Result Inventory string :=
  Ok (fold_left parse_token (split_char ";"%char line) create_empty).

(** The loop of [search_inventory_file] over the lines of the file. *)
Fixpoint search_lines (name : string) (ls : list string) : Inventory :=
  match ls with
  | [] => create_empty
  | l :: rest =>
      if String.prefix name l then
        match parse_inventory_string l with
        | Ok inv => inv
        | Err _ => search_lines name rest
        end
      else search_lines name rest
  end.

(** [search_inventory_file] *)
Definition search_inventory_file (file : option string) (name : string) : Result Inventory IoError :=
  match file with
  | None => Err FileNotFound
  | Some text => Ok (search_lines name (lines text))
  end.

(** The line the loop body of [update_inventory_file] writes for one
    player: the name, [;], then each occupied ore slot and [;]. *)
Definition inventory_line (name : string) (inv : Inventory) : string :=
  String.append name
    (String ";"%char
       (fold_right (fun o acc => String.append (Ore_to_string o) (String ";"%char acc))
          EmptyString (occupied (ores inv)))).

(** ** Invariants *)

(** The arrays have their Rust lengths. *)
Definition inventory_wf (inv : Inventory) : Prop :=
  length (ores inv) = ORE_SLOTS /\ length (foods inv) = FOOD_SLOTS.

(** A name the inventory line can carry without being read as an item. *)
Definition name_ok (name : string) : bool :=
  char_free ";"%char name && line_ok name &&
  bool_decide (Food_from_string name = None) && bool_decide (Ore_from_string name = None).

(** ** Lemmas *)

Lemma push_ore_wf o inv : inventory_wf inv -> inventory_wf (push_ore o inv).
Proof. unfold inventory_wf. simpl. by rewrite length_push_first_free. Qed.

Lemma push_food_wf f inv : inventory_wf inv -> inventory_wf (push_food f inv).
Proof. unfold inventory_wf. simpl. by rewrite length_push_first_free. Qed.

Lemma create_empty_wf : inventory_wf create_empty.
Proof. split; apply length_replicate. Qed.

#[export] Hint Resolve push_ore_wf push_food_wf create_empty_wf : craft.

Lemma name_ok_spec name :
  name_ok name = true <->
  char_free ";"%char name = true /\ line_ok name = true /\
  Food_from_string name = None /\ Ore_from_string name = None.
Proof. unfold name_ok. rewrite !andb_true_iff, !bool_decide_eq_true. tauto. Qed.

Lemma parse_token_ores inv os :
  fold_left parse_token (map Ore_to_string os) inv =
  {| ores := push_all os (ores inv); foods := foods inv |}.
Proof.
  revert inv. induction os as [|o os IH]; intros inv; simpl; [by destruct inv |].
  unfold parse_token at 2. rewrite Food_from_Ore_to_string, Ore_from_to. by rewrite IH.
Qed.

Lemma char_free_semicolon_ore o : char_free ";"%char (Ore_to_string o) = true.
Proof. by destruct o. Qed.

Lemma split_ore_tokens os :
  split_char ";"%char (fold_right (fun o acc => String.append (Ore_to_string o) (String ";"%char acc)) EmptyString os)
  = map Ore_to_string os ++ [EmptyString].
Proof.
  induction os as [|o os IH]; simpl; [done |].
  rewrite split_char_app by apply char_free_semicolon_ore. by rewrite IH.
Qed.

Lemma split_inventory_line name inv :
  char_free ";"%char name = true ->
  split_char ";"%char (inventory_line name inv) = name :: map Ore_to_string (occupied (ores inv)) ++ [EmptyString].
Proof. intros Hn. unfold inventory_line. rewrite split_char_app by done. by rewrite split_ore_tokens. Qed.

(** Reading a written line: the name's token, the ores, the final empty token. *)
Lemma parse_inventory_line_tokens name inv :
  char_free ";"%char name = true ->
  parse_inventory_string (inventory_line name inv) =
  Ok {| ores := push_all (occupied (ores inv)) (ores (parse_token create_empty name));
        foods := foods (parse_token create_empty name) |}.
Proof.
  intros Hn. unfold parse_inventory_string. rewrite split_inventory_line by done.
  simpl. rewrite fold_left_app, parse_token_ores. reflexivity.
Qed.

Lemma packed_wf_occupied_le inv : inventory_wf inv -> (length (occupied (ores inv)) <= ORE_SLOTS)%nat.
Proof. intros [Ho _]. rewrite <- Ho. apply length_occupied_le. Qed.

Lemma parse_token_plain inv name :
  Food_from_string name = None -> Ore_from_string name = None -> parse_token inv name = inv.
Proof. unfold parse_token. by intros -> ->. Qed.

Lemma line_ok_ore_tokens os :
  line_ok (fold_right (fun o acc => String.append (Ore_to_string o) (String ";"%char acc)) EmptyString os) = true.
Proof.
  induction os as [|o os IH]; simpl; [done |].
  rewrite line_ok_app, line_ok_sep by done. rewrite IH, andb_true_r. by destruct o.
Qed.

Lemma line_ok_inventory_line name inv : line_ok name = true -> line_ok (inventory_line name inv) = true.
Proof.
  intros H. unfold inventory_line. rewrite line_ok_app, line_ok_sep by done.
  by rewrite H, line_ok_ore_tokens.
Qed.

Lemma prefix_inventory_line name name' inv :
  String.prefix name name' = true -> String.prefix name (inventory_line name' inv) = true.
Proof. apply prefix_app. Qed.

Lemma search_lines_hit name l ls :
  String.prefix name l = true ->
  search_lines name (l :: ls) = match parse_inventory_string l with Ok inv => inv | Err _ => search_lines name ls end.
Proof. simpl. by intros ->. Qed.

(** ** Theorems *)

(** C17: Reading back the line [update_inventory_file] writes for an
    owner whose name is no item token gives the same ore slots, at the
    same positions when the ore array is packed, and six empty food
    slots: foods are not saved. *)
Theorem parse_inventory_line name inv :
  name_ok name = true -> inventory_wf inv -> packed (ores inv) = true ->
  parse_inventory_string (inventory_line name inv) =
  Ok {| ores := ores inv; foods := replicate FOOD_SLOTS None |}.
Proof.
  intros (Hs & _ & Hf & Ho)%name_ok_spec Hwf Hp.
  rewrite parse_inventory_line_tokens, parse_token_plain by done. unfold create_empty. cbn [ores foods].
  rewrite push_all_empty; [| apply packed_wf_occupied_le; exact Hwf].
  destruct Hwf as [Hlen _]. rewrite <- Hlen, <- (packed_shape _ Hp). done.
Qed.

(** C25: An owner whose name is an ore token (a player registered as
    [Diamond]) gains that ore on every load: the name is parsed as the
    first token of the line, so the ore comes first and the saved ores
    follow, as many as fit in the 20 slots. *)
Theorem parse_inventory_line_name_token name o inv :
  Ore_from_string name = Some o -> char_free ";"%char name = true ->
  exists inv', parse_inventory_string (inventory_line name inv) = Ok inv' /\
               occupied (ores inv') = take ORE_SLOTS (o :: occupied (ores inv)).
Proof.
  intros Ho Hs. eexists. rewrite parse_inventory_line_tokens by done. split; [done |].
  cbn [ores]. unfold parse_token. rewrite Ho.
  assert (Food_from_string name = None) as ->.
  { apply Ore_to_from in Ho. subst. apply Food_from_Ore_to_string. }
  unfold push_ore, create_empty. cbn [ores]. rewrite occupied_push_all by (apply packed_push_first_free, packed_replicate_None).
  rewrite length_push_first_free, length_replicate. reflexivity.
Qed.

(** ** Witnesses *)

(** An inventory with two ores. *)
Definition two_ores : Inventory := push_ore GoldOre (push_ore IronOre create_empty).

Lemma parse_inventory_line_witness :
  name_ok "steve" = true /\ inventory_wf two_ores /\ packed (ores two_ores) = true /\
  parse_inventory_string (inventory_line "steve" two_ores) =
  Ok {| ores := ores two_ores; foods := replicate FOOD_SLOTS None |}.
Proof.
  assert (name_ok "steve" = true) as H1 by reflexivity.
  assert (inventory_wf two_ores) as H2 by (split; reflexivity).
  assert (packed (ores two_ores) = true) as H3 by reflexivity.
  split_and!; [exact H1 | exact H2 | exact H3 | apply parse_inventory_line; assumption].
Defined.

Lemma parse_inventory_line_name_token_witness :
  Ore_from_string "Diamond" = Some Diamond /\ char_free ";"%char "Diamond" = true /\
  exists inv', parse_inventory_string (inventory_line "Diamond" create_empty) = Ok inv' /\
               occupied (ores inv') = take ORE_SLOTS [Diamond].
Proof.
  split_and!; [reflexivity | reflexivity |].
  apply (parse_inventory_line_name_token "Diamond" Diamond create_empty); reflexivity.
Defined.
