(* ===== verification/Rng.v ===== *)
(** * Rng: the random source of the program

    The program draws its randomness from the thread-local generator of
    the [rand] crate: [rand::random::<bool>()] in [Player::mine_ore],
    [rng.gen_range(1..=100)] on a [u8] in [mine] and in
    [try_starting_event].  Both calls read the same generator, so the
    order of the draws matters.  The generator is an interface here:
    [Class Rng] gives the two draws as functions on an explicit
    generator state, and [RngLaws] states the promise the clients rely
    on, that [gen_range_1_100] stays within [1..=100].  The mining
    theorems are proved against the interface.  [Tape] is an instance
    that replays a list of numbers (each read as one draw), for
    evaluating the model on chosen outcomes. *)

From S2P Require Import Prelude.

Local Open Scope Z_scope.

Class Rng (G : Type) := {
  (** [rng.gen_range(1..=100)] *)
  gen_range_1_100 : G -> Z * G;
  (** [rand::random::<bool>()] *)
  random_bool : G -> bool * G
}.

Class RngLaws (G : Type) `{Rng G} := {
  gen_range_bounds : forall g, 1 <= fst (gen_range_1_100 g) <= 100
}.

(** A replayed sequence of draws: a range draw reads the next number
    into [1..=100], a coin reads its parity; an exhausted tape reads 0. *)
Record Tape : Type := mkTape { draws : list Z }.

Definition tape_next (t : Tape) : Z * Tape :=
  match draws t with
  | [] => (0, t)
  | d :: ds => (d, mkTape ds)
  end.

#[export] Instance Tape_Rng : Rng Tape := {
  gen_range_1_100 t := let '(d, t') := tape_next t in (1 + (d - 1) mod 100, t');
  random_bool t := let '(d, t') := tape_next t in (Z.odd d, t')
}.

#[export] Instance Tape_RngLaws : RngLaws Tape.
Proof.
  constructor. intros t. simpl. destruct (tape_next t) as [d t'].
  simpl. pose proof (Z.mod_pos_bound (d - 1) 100). lia.
Qed.

(** A tape value in range is read as itself. *)
Lemma tape_range_exact r ds : 1 <= r <= 100 -> gen_range_1_100 (mkTape (r :: ds)) = (r, mkTape ds).
Proof.
  intros Hr. simpl. f_equal. rewrite Z.mod_small by lia. lia.
Qed.
