(* ===== verification/Player.v ===== *)
(** * Player: [src/src/player/mod.rs]

    A [Player] owns one [Account] and one [Inventory] and keeps a
    transient [health] and [depth], both [u8].  Every method of
    [impl Player] is a definition here, with the source's name:
    [spend] returns the new player or the error message (on an error
    nothing changed); [take_damage] uses [u8::overflowing_sub];
    [heal] and [go_deeper] add on [u8] and therefore may panic
    ([Outcome]); [mine_ore] reads the random source through the
    [Rng] interface; [eat] heals and clears the eaten slot.  The
    private function [mine] turns one draw into an ore kind.

    The theorems: the behaviour of each method on every branch; the
    invariant [player_wf] (field widths, array lengths, health in
    [0,100]) and its preservation by every method (with the one
    overflow, [go_deeper] at depth 255); the pickaxe level staying in
    [1,3] once it is there; the upgrade cost; and the exact
    distribution of [mine] over the 100 possible draws for each
    pickaxe level. *)

From S2P Require Import Prelude Items Slots Text Account Inventory Rng.

Local Open Scope Z_scope.

Record Player : Type := mkPlayer {
  account : Account;
  inventory : Inventory;
  health : Z;   (** [u8] *)
  depth : Z     (** [u8] *)
}.

(** ** Field updates *)

Definition set_account (a : Account) (p : Player) : Player :=
  {| account := a; inventory := inventory p; health := health p; depth := depth p |}.
Definition set_inventory (i : Inventory) (p : Player) : Player :=
  {| account := account p; inventory := i; health := health p; depth := depth p |}.
Definition set_health (h : Z) (p : Player) : Player :=
  {| account := account p; inventory := inventory p; health := h; depth := depth p |}.
Definition set_depth (d : Z) (p : Player) : Player :=
  {| account := account p; inventory := inventory p; health := health p; depth := d |}.
Definition set_money (m : Z) (p : Player) : Player :=
  set_account {| username := username (account p); money := m;
                 pickaxe_level := pickaxe_level (account p) |} p.
Definition set_pickaxe_level (l : Z) (p : Player) : Player :=
  set_account {| username := username (account p); money := money (account p);
                 pickaxe_level := l |} p.

(** ** Methods *)

(** [Player::spend] *)
Definition spend (amount : Z) (p : Player) : Result Player string :=
  if amount <=? money (account p) then Ok (set_money (money (account p) - amount) p)
  else Err "Error: Not enough money!"%string.

(** [Player::take_damage] *)
Definition take_damage (damage : Z) (p : Player) : Player :=
  let '(new_health, overflowed) := overflowing_sub 8 (health p) damage in
  if overflowed then set_health 0 p else set_health new_health p.

(** [Player::heal]: [self.health += heal] on [u8], then the cap at 100. *)
Definition heal (amount : Z) (p : Player) : Outcome Player :=
  let! h := add_u 8 (health p) amount in
  if h >? 100 then Returns (set_health 100 p) else Returns (set_health h p).

(** [Player::is_alive] *)
Definition is_alive (p : Player) : bool := health p >? 0.

(** [Player::new] *)
Definition new (inv : Inventory) (acc : Account) : Player :=
  {| account := acc; inventory := inv; health := 100; depth := 1 |}.

(** [Player::stop_mining] *)
Definition stop_mining (p : Player) : Player := set_depth 1 p.

(** [Player::go_deeper]: [self.depth += 1] on [u8]. *)
Definition go_deeper (p : Player) : Outcome Player :=
  let! d := add_u 8 (depth p) 1 in Returns (set_depth d p).

(** [mine]: one draw [random_num] in [1..=100] against the thresholds. *)
Definition mine (iron_chance gold_chance random_num : Z) : Ore :=
  if random_num <? iron_chance then IronOre
  else if random_num <? iron_chance + gold_chance then GoldOre
  else Diamond.

(** The [match] on the pickaxe level in [Player::mine_ore]. *)
Definition pickaxe_chances (level : Z) : Z * Z :=
  if level =? 3 then (60, 40)
  else if level =? 2 then (54, 36)
  else (57, 28).

Section Mining.
Context `{Rng G}.

(** One iteration of the loop of [mine_ore]: a coin, and on heads a
    range draw inside [mine] and the insertion of the ore. *)
Definition mine_ore_iter (iron_chance gold_chance : Z) (st : Player * G) : Player * G :=
  let '(p, g) := st in
  let '(b, g1) := random_bool g in
  if b then
    let '(r, g2) := gen_range_1_100 g1 in
    (set_inventory (push_ore (mine iron_chance gold_chance r) (inventory p)) p, g2)
  else (p, g1).

(** [Player::mine_ore]: [for _ in 1..3], two iterations. *)
Definition mine_ore (p : Player) (g : G) : Player * G :=
  let '(iron_chance, gold_chance) := pickaxe_chances (pickaxe_level (account p)) in
  fold_left (fun st _ => mine_ore_iter iron_chance gold_chance st) [1; 2] (p, g).
End Mining.

(** [Player::can_eat]: the display index is 1-based. *)
Definition can_eat (index : Z) (p : Player) : bool :=
  if negb ((index >=? 1) && (index <=? 6)) then false
  else match foods (inventory p) !! Z.to_nat (index - 1) with
       | Some (Some _) => true
       | _ => false
       end.

(** The amount of health each food gives in [Player::eat]. *)
Definition food_heal (f : Food) : Z :=
  match f with
  | Apple => 10
  | Chicken => 30
  | Beef => 40
  end.

(** [Player::eat]: heal by the food, then clear its slot. *)
Definition eat (index : Z) (p : Player) : Outcome Player :=
  if negb (can_eat index p) then Returns p
  else
    let i := Z.to_nat (index - 1) in
    match foods (inventory p) !! i with
    | Some (Some f) =>
        let! p' := heal (food_heal f) p in
        Returns (set_inventory {| ores := ores (inventory p');
                                  foods := <[i := None]> (foods (inventory p')) |} p')
    | _ => Panics UnwrapFailed
    end.

(** [Player::purge_inventory] *)
Definition purge_inventory (p : Player) : Player :=
  set_inventory {| ores := clear_all (ores (inventory p)); foods := foods (inventory p) |} p.

(** [Player::is_pickaxe_maxed] *)
Definition is_pickaxe_maxed (p : Player) : bool := pickaxe_level (account p) >=? 3.

(** [Player::upgrade_pickaxe_cost]: on [u32], [level * 200 + 100]. *)
Definition upgrade_pickaxe_cost (p : Player) : Z := pickaxe_level (account p) * 200 + 100.

(** [Player::upgrade_pickaxe] *)
Definition upgrade_pickaxe (p : Player) : Player :=
  if pickaxe_level (account p) <? 3 then set_pickaxe_level (pickaxe_level (account p) + 1) p else p.

(** [update_inventory_file] of [src/src/inventory/mod.rs]: the file is
    truncated and each player's inventory line written with a newline. *)
Definition update_inventory_file (players : list Player) : string :=
  unlines (map (fun p => inventory_line (username (account p)) (inventory p)) players).

(** ** The distribution of [mine] *)

(** The 100 equally likely values of [rng.gen_range(1..=100)]. *)
Definition draws_1_100 : list Z := seqZ 1 100.

(** How many of the 100 draws give ore [o] at pickaxe level [level]. *)
Definition mine_count (level : Z) (o : Ore) : nat :=
  length (filter (fun r => mine (fst (pickaxe_chances level)) (snd (pickaxe_chances level)) r = o)
            draws_1_100).

(** ** Invariants *)

(** The fields hold values of their types, the arrays have their
    lengths, the health is at most 100 and the depth at least 1. *)
Definition player_wf (p : Player) : Prop :=
  account_wf (account p) /\ inventory_wf (inventory p) /\
  0 <= health p <= 100 /\ 1 <= depth p <= uint_max 8.

(** The pickaxe level is one of the three the game knows. *)
Definition level_ok (p : Player) : Prop := 1 <= pickaxe_level (account p) <= 3.

(** ** Lemmas on the field updates *)

Lemma set_money_fields m p :
  money (account (set_money m p)) = m /\ username (account (set_money m p)) = username (account p) /\
  pickaxe_level (account (set_money m p)) = pickaxe_level (account p) /\
  inventory (set_money m p) = inventory p /\ health (set_money m p) = health p /\
  depth (set_money m p) = depth p.
Proof. done. Qed.

Lemma player_wf_set_health h p : player_wf p -> 0 <= h <= 100 -> player_wf (set_health h p).
Proof. unfold player_wf. simpl. tauto. Qed.

Lemma player_wf_set_depth d p : player_wf p -> 1 <= d <= uint_max 8 -> player_wf (set_depth d p).
Proof. unfold player_wf. simpl. tauto. Qed.

Lemma player_wf_set_inventory i p : player_wf p -> inventory_wf i -> player_wf (set_inventory i p).
Proof. unfold player_wf. simpl. tauto. Qed.

Lemma player_wf_set_money m p : player_wf p -> 0 <= m <= uint_max 32 -> player_wf (set_money m p).
Proof. unfold player_wf, account_wf. simpl. tauto. Qed.

#[export] Hint Resolve player_wf_set_health player_wf_set_depth player_wf_set_inventory player_wf_set_money : craft.

(** ** Behaviour of the methods *)

Lemma take_damage_health d p :
  0 <= health p <= uint_max 8 -> 0 <= d <= uint_max 8 ->
  take_damage d p = set_health (Z.max 0 (health p - d)) p.
Proof.
  intros Hh Hd. unfold take_damage.
  destruct (Z.ltb_spec (health p) d) as [Hlt|Hge].
  - pose proof (overflowing_sub_borrow 8 (health p) d Hlt) as Hb.
    destruct (overflowing_sub 8 (health p) d) as [v b]. simpl in Hb. subst b.
    unfold set_health. f_equal. lia.
  - rewrite overflowing_sub_in_range by lia. unfold set_health. f_equal. lia.
Qed.

Lemma heal_health h p :
  0 <= health p <= 100 -> 0 <= h -> health p + h <= uint_max 8 ->
  heal h p = Returns (set_health (Z.min 100 (health p + h)) p).
Proof.
  intros Hh Hpos Hmax. unfold heal. rewrite add_u_ok by done. simpl.
  case_z; unfold set_health; do 2 f_equal; lia.
Qed.

Lemma heal_overflow h p : uint_max 8 < health p + h -> heal h p = Panics ArithOverflow.
Proof. intros H. unfold heal. by rewrite add_u_overflow. Qed.

Lemma go_deeper_depth p : depth p < uint_max 8 -> go_deeper p = Returns (set_depth (depth p + 1) p).
Proof. intros H. unfold go_deeper. rewrite add_u_ok by lia. reflexivity. Qed.

Lemma go_deeper_overflow p : depth p = uint_max 8 -> go_deeper p = Panics ArithOverflow.
Proof. intros H. unfold go_deeper. rewrite add_u_overflow by lia. reflexivity. Qed.

Lemma can_eat_spec index p :
  can_eat index p = true <->
  1 <= index <= 6 /\ exists f, foods (inventory p) !! Z.to_nat (index - 1) = Some (Some f).
Proof.
  unfold can_eat. destruct ((index >=? 1) && (index <=? 6)) eqn:E; simpl.
  - apply andb_true_iff in E as [E1 E2]. apply Z.geb_le in E1. apply Z.leb_le in E2.
    destruct (foods (inventory p) !! _) as [[f|]|]; split; intros H; try done.
    + split; [lia | by eexists].
    + by destruct H as [_ [? ?]].
    + by destruct H as [_ [? ?]].
  - split; [done |]. intros [[H1 H2] _].
    apply andb_false_iff in E as [E|E]; [rewrite Z.geb_leb in E |]; apply Z.leb_gt in E; lia.
Qed.

Lemma eat_noop index p : can_eat index p = false -> eat index p = Returns p.
Proof. unfold eat. by intros ->. Qed.

Lemma eat_returns index p f :
  0 <= health p <= 100 -> can_eat index p = true ->
  foods (inventory p) !! Z.to_nat (index - 1) = Some (Some f) ->
  eat index p =
  Returns (set_inventory {| ores := ores (inventory p);
                            foods := <[Z.to_nat (index - 1) := None]> (foods (inventory p)) |}
                         (set_health (Z.min 100 (health p + food_heal f)) p)).
Proof.
  intros Hh Hc Hf. unfold eat. rewrite Hc, Hf. simpl negb. cbv iota.
  rewrite heal_health; [reflexivity | lia | destruct f; simpl; lia | rewrite uint_max_8; destruct f; simpl; lia].
Qed.

Lemma upgrade_pickaxe_level p :
  pickaxe_level (account (upgrade_pickaxe p)) =
  if pickaxe_level (account p) <? 3 then pickaxe_level (account p) + 1 else pickaxe_level (account p).
Proof. unfold upgrade_pickaxe. by case_z. Qed.

Section MiningLemmas.
Context `{Rng G}.

(** One iteration of the loop inserts at most one ore and nothing else. *)
Lemma mine_ore_iter_shape ic gc p g :
  fst (mine_ore_iter ic gc (p, g)) = p \/
  exists r, fst (mine_ore_iter ic gc (p, g)) = set_inventory (push_ore (mine ic gc r) (inventory p)) p.
Proof.
  unfold mine_ore_iter. destruct (random_bool g) as [[] g1]; [| by left].
  destruct (gen_range_1_100 g1) as [r g2]. right. by exists r.
Qed.

Lemma mine_ore_unfold p g :
  mine_ore p g =
  mine_ore_iter (fst (pickaxe_chances (pickaxe_level (account p))))
                (snd (pickaxe_chances (pickaxe_level (account p))))
    (mine_ore_iter (fst (pickaxe_chances (pickaxe_level (account p))))
                   (snd (pickaxe_chances (pickaxe_level (account p)))) (p, g)).
Proof. unfold mine_ore. by destruct (pickaxe_chances _). Qed.
End MiningLemmas.

(** ** Preservation of the invariant, one method at a time *)

Lemma spend_wf amount p p' : player_wf p -> 0 <= amount -> spend amount p = Ok p' -> player_wf p'.
Proof.
  intros Hwf Ha. unfold spend. case_z; intros [= <-].
  apply player_wf_set_money; [done |]. destruct Hwf as ((Hm & _) & _). lia.
Qed.

Lemma take_damage_wf d p : player_wf p -> 0 <= d <= uint_max 8 -> player_wf (take_damage d p).
Proof.
  intros Hwf Hd. pose proof Hwf as (_ & _ & Hh & _).
  rewrite take_damage_health by (rewrite uint_max_8 in *; lia).
  apply player_wf_set_health; [done | lia].
Qed.

Lemma heal_wf h p p' : player_wf p -> 0 <= h -> heal h p = Returns p' -> player_wf p'.
Proof.
  intros Hwf Hh. pose proof Hwf as (_ & _ & Hhp & _). unfold heal, add_u.
  case_z; simpl; case_z; intros [= <-]; apply player_wf_set_health; auto; lia.
Qed.

Lemma go_deeper_wf p p' : player_wf p -> go_deeper p = Returns p' -> player_wf p'.
Proof.
  intros Hwf. pose proof Hwf as (_ & _ & _ & Hd). unfold go_deeper, add_u.
  case_z; simpl; intros [= <-]. apply player_wf_set_depth; [done | lia].
Qed.

Lemma stop_mining_wf p : player_wf p -> player_wf (stop_mining p).
Proof. intros Hwf. apply player_wf_set_depth; [done | rewrite uint_max_8; lia]. Qed.

Lemma mine_ore_iter_wf `{Rng G} ic gc p (g : G) : player_wf p -> player_wf (fst (mine_ore_iter ic gc (p, g))).
Proof.
  intros Hwf. destruct (mine_ore_iter_shape ic gc p g) as [-> | [r ->]]; [done |].
  apply player_wf_set_inventory; [done |]. apply push_ore_wf. apply Hwf.
Qed.

Lemma mine_ore_wf `{Rng G} p (g : G) : player_wf p -> player_wf (fst (mine_ore p g)).
Proof.
  intros Hwf. rewrite mine_ore_unfold.
  destruct (mine_ore_iter _ _ (p, g)) as [p1 g1] eqn:E.
  apply mine_ore_iter_wf. change p1 with (fst (p1, g1)). rewrite <- E. by apply mine_ore_iter_wf.
Qed.

Lemma eat_wf index p p' : player_wf p -> eat index p = Returns p' -> player_wf p'.
Proof.
  intros Hwf. destruct (can_eat index p) eqn:Hc.
  - pose proof Hc as (_ & f & Hf)%can_eat_spec.
    pose proof Hwf as (_ & (Ho & Hfl) & Hh & _).
    rewrite (eat_returns index p f) by done. intros [= <-].
    apply player_wf_set_inventory.
    + apply player_wf_set_health; [done |]. destruct f; simpl; lia.
    + split; simpl; [done | by rewrite length_insert].
  - rewrite eat_noop by done. by intros [= <-].
Qed.

Lemma purge_inventory_wf p : player_wf p -> player_wf (purge_inventory p).
Proof.
  intros Hwf. apply player_wf_set_inventory; [done |].
  destruct Hwf as (_ & [Ho Hf] & _). split; simpl; [by rewrite length_clear_all | done].
Qed.

Lemma upgrade_pickaxe_wf p : player_wf p -> player_wf (upgrade_pickaxe p).
Proof.
  intros Hwf. unfold upgrade_pickaxe. case_z; [| done].
  destruct Hwf as ((Hm & Hl) & Hi & Hh & Hd).
  split; [split; simpl; [done | rewrite uint_max_8; lia] | done].
Qed.

(** ** Theorems *)

(** C4: [spend] succeeds exactly when the amount is at most the
    balance; on success the balance drops by the amount and nothing
    else changes; on failure the player is left as it was (the caller
    keeps it) and the balance was below the amount. *)
Theorem spend_spec amount p :
  match spend amount p with
  | Ok p' =>
      amount <= money (account p) /\ money (account p') = money (account p) - amount /\
      username (account p') = username (account p) /\
      pickaxe_level (account p') = pickaxe_level (account p) /\
      inventory p' = inventory p /\ health p' = health p /\ depth p' = depth p
  | Err _ => money (account p) < amount
  end.
Proof. unfold spend. case_z; [repeat split; done | lia]. Qed.

(** C10: [take_damage] saturates at zero: for every [u8] health and
    damage the new health is [max 0 (health - damage)], and nothing
    else changes. *)
Theorem take_damage_saturates d p :
  0 <= health p <= uint_max 8 -> 0 <= d <= uint_max 8 ->
  take_damage d p = set_health (Z.max 0 (health p - d)) p.
Proof. apply take_damage_health. Qed.

(** C11: [heal] caps the health at 100 when the [u8] sum does not
    overflow; when [health + amount] exceeds 255 the addition panics
    instead of saturating. *)
Theorem heal_caps h p :
  0 <= health p <= 100 -> 0 <= h ->
  heal h p = (if health p + h <=? uint_max 8
              then Returns (set_health (Z.min 100 (health p + h)) p)
              else Panics ArithOverflow).
Proof.
  intros Hh Hpos. case_z.
  - by apply heal_health.
  - apply heal_overflow. lia.
Qed.

(** C12: Eating the food in slot [index], for an index in 1..6 whose
    slot is occupied, heals by 10 for an Apple, 30 for a Chicken and
    40 for a Beef, capped at 100, and empties exactly that slot; an
    index outside 1..6 or an empty slot changes nothing; it never
    panics on a well-formed player. *)
Theorem eat_spec index p :
  player_wf p ->
  eat index p =
  if (1 <=? index) && (index <=? 6) then
    match foods (inventory p) !! Z.to_nat (index - 1) with
    | Some (Some f) =>
        let amount := match f with Apple => 10 | Chicken => 30 | Beef => 40 end in
        Returns (set_inventory {| ores := ores (inventory p);
                                  foods := <[Z.to_nat (index - 1) := None]> (foods (inventory p)) |}
                               (set_health (Z.min 100 (health p + amount)) p))
    | _ => Returns p
    end
  else Returns p.
Proof.
  intros (_ & _ & Hh & _).
  destruct ((1 <=? index) && (index <=? 6)) eqn:R;
    [| rewrite eat_noop; [done |]; apply not_true_iff_false; rewrite can_eat_spec; intros [? _];
       apply andb_false_iff in R as [R|R]; apply Z.leb_gt in R; lia].
  apply andb_true_iff in R as [R1 R2]. apply Z.leb_le in R1, R2.
  destruct (_ !! _) as [[f|]|] eqn:Hf.
  - rewrite (eat_returns index p f); [by destruct f | done | apply can_eat_spec; eauto | done].
  - rewrite eat_noop; [done |]. apply not_true_iff_false. rewrite can_eat_spec. intros [_ [? ?]]. congruence.
  - rewrite eat_noop; [done |]. apply not_true_iff_false. rewrite can_eat_spec. intros [_ [? ?]]. congruence.
Qed.

(** C1: Every method of [Player] keeps the invariant [player_wf]:
    field widths, array lengths, health in [0,100], depth in [1,255];
    [heal] and [go_deeper] keep it whenever they return. *)
Theorem player_methods_preserve_wf `{Rng G} p (g : G) :
  player_wf p ->
  (forall amount p', 0 <= amount -> spend amount p = Ok p' -> player_wf p') /\
  (forall d, 0 <= d <= uint_max 8 -> player_wf (take_damage d p)) /\
  (forall h p', 0 <= h -> heal h p = Returns p' -> player_wf p') /\
  player_wf (stop_mining p) /\
  (forall p', go_deeper p = Returns p' -> player_wf p') /\
  player_wf (fst (mine_ore p g)) /\
  (forall index p', eat index p = Returns p' -> player_wf p') /\
  player_wf (purge_inventory p) /\
  player_wf (upgrade_pickaxe p).
Proof.
  intros Hwf. split_and!; intros;
    eauto using spend_wf, take_damage_wf, heal_wf, stop_mining_wf, go_deeper_wf,
      mine_ore_wf, eat_wf, purge_inventory_wf, upgrade_pickaxe_wf.
Qed.

(** C20: The pickaxe level stays in [1,3]: [upgrade_pickaxe] adds one
    below 3 and does nothing at 3. *)
Theorem upgrade_pickaxe_spec p :
  level_ok p ->
  level_ok (upgrade_pickaxe p) /\
  (pickaxe_level (account p) = 3 -> upgrade_pickaxe p = p) /\
  (pickaxe_level (account p) < 3 -> pickaxe_level (account (upgrade_pickaxe p)) = pickaxe_level (account p) + 1).
Proof.
  unfold level_ok. intros Hl. split; [| split].
  - rewrite upgrade_pickaxe_level. case_z; lia.
  - intros H3. unfold upgrade_pickaxe. case_z; [lia | done].
  - intros H3. rewrite upgrade_pickaxe_level. case_z; lia.
Qed.

(** C21: The upgrade costs 300, 500 and 700 at levels 1, 2 and 3, and
    for every [u8] level the [u32] arithmetic of the cost cannot
    overflow. *)
Theorem upgrade_pickaxe_cost_bounds p :
  0 <= pickaxe_level (account p) <= uint_max 8 ->
  100 <= upgrade_pickaxe_cost p <= 51100 /\ upgrade_pickaxe_cost p <= uint_max 32 /\
  (pickaxe_level (account p) = 1 -> upgrade_pickaxe_cost p = 300) /\
  (pickaxe_level (account p) = 2 -> upgrade_pickaxe_cost p = 500) /\
  (pickaxe_level (account p) = 3 -> upgrade_pickaxe_cost p = 700).
Proof.
  unfold upgrade_pickaxe_cost. rewrite uint_max_8, uint_max_32. intros H.
  repeat split; intros; lia.
Qed.

(** C26: The inventory lookup matches a prefix of the line, not the
    owner's name: when player [q]'s name is a prefix of the name of
    player [p] listed before it, loading [q] reads [p]'s ores. *)
Theorem search_inventory_prefix_confusion p q :
  name_ok (username (account p)) = true -> line_ok (username (account q)) = true ->
  inventory_wf (inventory p) -> packed (ores (inventory p)) = true ->
  String.prefix (username (account q)) (username (account p)) = true ->
  search_inventory_file (Some (update_inventory_file [p; q])) (username (account q)) =
  Ok {| ores := ores (inventory p); foods := replicate FOOD_SLOTS None |}.
Proof.
  intros Hp Hq Hwf Hpk Hpre. pose proof Hp as (_ & Hlp & _)%name_ok_spec.
  unfold search_inventory_file, update_inventory_file. simpl map.
  rewrite lines_unlines by (repeat constructor; by apply line_ok_inventory_line).
  rewrite search_lines_hit by (by apply prefix_inventory_line).
  by rewrite parse_inventory_line.
Qed.

(** C5: Over the 100 equally likely draws of [gen_range(1..=100)],
    [mine] gives iron, gold and diamond 56, 28 and 16 times at level 1
    (and every level other than 2 and 3), 53, 36 and 11 times at
    level 2, and 59, 40 and 1 times at level 3: the strict comparisons
    shift one draw from iron to diamond, and level 3 keeps a 1% diamond
    chance. *)
Theorem mine_distribution :
  ((mine_count 1 IronOre, mine_count 1 GoldOre, mine_count 1 Diamond) = (56%nat, 28%nat, 16%nat)) /\
  ((mine_count 2 IronOre, mine_count 2 GoldOre, mine_count 2 Diamond) = (53%nat, 36%nat, 11%nat)) /\
  ((mine_count 3 IronOre, mine_count 3 GoldOre, mine_count 3 Diamond) = (59%nat, 40%nat, 1%nat)).
Proof. vm_compute. repeat split. Qed.

(** ** Witnesses *)

(** A fresh player, and one at half health with an apple in slot 1. *)
Definition fresh_player : Player := new create_empty (new_account "steve").
Definition hungry_player : Player :=
  set_inventory (push_food Apple create_empty) (set_health 50 fresh_player).

Lemma fresh_player_wf : player_wf fresh_player.
Proof. unfold player_wf, account_wf, inventory_wf. solve_concrete. Qed.

Lemma hungry_player_wf : player_wf hungry_player.
Proof. unfold player_wf, account_wf, inventory_wf. solve_concrete. Qed.

Lemma take_damage_saturates_witness :
  (0 <= health fresh_player <= uint_max 8 /\ 0 <= 120 <= uint_max 8) /\
  take_damage 120 fresh_player = set_health 0 fresh_player.
Proof.
  split; [solve_concrete |].
  rewrite (take_damage_saturates 120 fresh_player) by solve_concrete. reflexivity.
Defined.

Lemma heal_caps_witness :
  (0 <= health hungry_player <= 100 /\ 0 <= 210) /\
  heal 210 hungry_player = Panics ArithOverflow /\
  heal 40 hungry_player = Returns (set_health 90 hungry_player).
Proof.
  split; [solve_concrete |]. split.
  - rewrite (heal_caps 210 hungry_player) by solve_concrete. vm_compute. reflexivity.
  - rewrite (heal_caps 40 hungry_player) by solve_concrete. vm_compute. reflexivity.
Defined.

Lemma eat_spec_witness :
  player_wf hungry_player /\
  eat 1 hungry_player =
  Returns (set_inventory {| ores := ores (inventory hungry_player); foods := replicate FOOD_SLOTS None |}
                         (set_health 60 hungry_player)).
Proof.
  split; [exact hungry_player_wf |].
  rewrite (eat_spec 1 hungry_player hungry_player_wf). reflexivity.
Defined.

Lemma player_methods_preserve_wf_witness :
  player_wf hungry_player /\ player_wf (fst (mine_ore hungry_player (mkTape [1; 100; 1; 7]))).
Proof.
  split; [exact hungry_player_wf |].
  apply (player_methods_preserve_wf hungry_player (mkTape [1; 100; 1; 7]) hungry_player_wf).
Defined.

Lemma upgrade_pickaxe_spec_witness :
  level_ok fresh_player /\ level_ok (upgrade_pickaxe fresh_player) /\
  pickaxe_level (account (upgrade_pickaxe fresh_player)) = 2.
Proof.
  assert (level_ok fresh_player) as Hl by solve_concrete.
  destruct (upgrade_pickaxe_spec fresh_player Hl) as (H1 & _ & H3).
  split_and!; [exact Hl | exact H1 | apply H3; reflexivity].
Defined.

Lemma upgrade_pickaxe_cost_bounds_witness :
  0 <= pickaxe_level (account fresh_player) <= uint_max 8 /\ upgrade_pickaxe_cost fresh_player = 300.
Proof.
  assert (0 <= pickaxe_level (account fresh_player) <= uint_max 8) as Hl by solve_concrete.
  split; [exact Hl |].
  destruct (upgrade_pickaxe_cost_bounds fresh_player Hl) as (_ & _ & H1 & _). apply H1. reflexivity.
Defined.

Definition player_abc : Player := new two_ores (new_account "abc").
Definition player_ab : Player := new create_empty (new_account "ab").

Lemma search_inventory_prefix_confusion_witness :
  (name_ok (username (account player_abc)) = true /\ line_ok (username (account player_ab)) = true /\
   inventory_wf (inventory player_abc) /\ packed (ores (inventory player_abc)) = true /\
   String.prefix (username (account player_ab)) (username (account player_abc)) = true) /\
  search_inventory_file (Some (update_inventory_file [player_abc; player_ab])) "ab" =
  Ok {| ores := ores two_ores; foods := replicate FOOD_SLOTS None |}.
Proof.
  assert (inventory_wf (inventory player_abc)) as Hwf by (split; reflexivity).
  split; [split_and!; try reflexivity; exact Hwf |].
  apply (search_inventory_prefix_confusion player_abc player_ab); try reflexivity. exact Hwf.
Defined.
