(* ===== verification/Mining.v ===== *)
(** * Mining: [go_mining], [eat_food], [dig], [try_starting_event] of [src/src/main.rs]

    [dig] is the central random step: three chained events, each a
    fresh draw in [1..=100] read by [try_starting_event] (go deeper on
    a draw of at most 40; else lose 10 health on at most 20; else lose
    30 on at most 10), then [Player::mine_ore] in every case.

    The menus [go_mining] and [eat_food] are loops over lines read from
    standard input.  They are modelled as a state machine: a
    [MiningState] holds the menu the loop is in, the player and the
    generator, and [mining_step] consumes one input line.  [run_mining]
    feeds a list of lines, stopping when the player leaves the mine.
    Printing is not modelled.

    The theorems: the outcome of [dig] for every draw and its
    probabilities counted over the draws (40% deeper, 12% small loss,
    4.8% large loss, not the 40/20/10 the numbers suggest); the
    invariant of the mining loop; the expedition resetting the depth
    and not the health; the overflow of the depth after 254 lucky digs;
    and the loop never ending once the input is exhausted. *)

From S2P Require Import Prelude Items Slots Text Account Inventory Rng Player.

Local Open Scope Z_scope.

Section Dig.
Context `{Rng G}.

(** [try_starting_event]: a draw in [1..=100] at most [chance]. *)
Definition try_starting_event (chance : Z) (g : G) : bool * G :=
  let '(random_num, g') := gen_range_1_100 g in (random_num <=? chance, g').

(** [dig] *)
Definition dig (p : Player) (g : G) : Outcome (Player * G) :=
  let '(deeper, g1) := try_starting_event 40 g in
  if deeper then
    let! p' := go_deeper p in Returns (mine_ore p' g1)
  else
    let '(hungry, g2) := try_starting_event 20 g1 in
    if hungry then Returns (mine_ore (take_damage 10 p) g2)
    else
      let '(explode, g3) := try_starting_event 10 g2 in
      if explode then Returns (mine_ore (take_damage 30 p) g3)
      else Returns (mine_ore p g3).
End Dig.

(** The four outcomes of the event chain of [dig], as functions of the
    draws it would read. *)
Inductive DigEvent : Type :=
| Deeper
| Hungry
| Explode
| Nothing.

#[export] Instance DigEvent_eq_dec : EqDecision DigEvent.
Proof. solve_decision. Defined.

Definition dig_event (r1 r2 r3 : Z) : DigEvent :=
  if r1 <=? 40 then Deeper
  else if r2 <=? 20 then Hungry
  else if r3 <=? 10 then Explode
  else Nothing.

(** The weight of an event: how many of the [100^3] equally likely
    triples of draws give it (a draw that is not read counts for each
    of its 100 values). *)
Definition sum_Z (f : Z -> Z) (l : list Z) : Z := fold_right (fun x acc => f x + acc) 0 l.

Definition dig_event_weight (e : DigEvent) : Z :=
  sum_Z (fun r1 => sum_Z (fun r2 =>
    Z.of_nat (length (filter (fun r3 => dig_event r1 r2 r3 = e) draws_1_100))) draws_1_100) draws_1_100.

(** ** The menu loops *)

(** Where the loops of [go_mining] and [eat_food] are. *)
Inductive MiningMenu : Type :=
| MiningMain          (** the [loop] of [go_mining], reading a choice *)
| EatMenu             (** the [loop] of [eat_food], reading an index *)
| EatWait             (** [wait_for_enter] inside the [eat_food] loop *)
| EatWaitThenReturn   (** [wait_for_enter] before [eat_food] returns *)
| LeftMine.           (** [go_mining] has returned *)

Record MiningState (G : Type) : Type := mkMiningState {
  menu : MiningMenu;
  player : Player;
  rng : G
}.
Arguments mkMiningState {G} _ _ _.
Arguments menu {G} _.
Arguments player {G} _.
Arguments rng {G} _.

Section Loop.
Context `{Rng G}.

(** One line of input in the mining menus. *)
Definition mining_step (st : MiningState G) (line : string) : Outcome (MiningState G) :=
  let p := player st in
  let g := rng st in
  match menu st with
  | MiningMain =>
      let choice := read_choice line in
      if choice =? 1 then
        if is_alive p then
          let! pg := dig p g in Returns (mkMiningState MiningMain (fst pg) (snd pg))
        else Returns st
      else if choice =? 2 then Returns (mkMiningState EatMenu p g)
      else if choice =? 3 then Returns (mkMiningState LeftMine p g)
      else Returns st
  | EatMenu =>
      let input := read_choice line in
      if input =? 0 then Returns (mkMiningState EatWaitThenReturn p g)
      else if can_eat input p then
        let! p' := eat input p in Returns (mkMiningState EatWait p' g)
      else Returns (mkMiningState EatWait p g)
  | EatWait => Returns (mkMiningState EatMenu p g)
  | EatWaitThenReturn => Returns (mkMiningState MiningMain p g)
  | LeftMine => Returns st
  end.

(** The loop over the input lines, until the player leaves the mine. *)
Fixpoint run_mining (st : MiningState G) (input : list string) : Outcome (MiningState G * list string) :=
  match input with
  | [] => Returns (st, [])
  | line :: rest =>
      match menu st with
      | LeftMine => Returns (st, input)
      | _ => let! st' := mining_step st line in run_mining st' rest
      end
  end.

(** [go_mining]: the expedition starts at depth 1. *)
Definition go_mining (p : Player) (g : G) (input : list string) : Outcome (MiningState G * list string) :=
  run_mining (mkMiningState MiningMain (stop_mining p) g) input.
End Loop.

(** ** Lemmas *)

Section DigLemmas.
Context `{Rng G}.

Lemma dig_wf p (g : G) pg : player_wf p -> dig p g = Returns pg -> player_wf (fst pg).
Proof.
  intros Hwf. unfold dig, try_starting_event.
  destruct (gen_range_1_100 g) as [r1 g1]. simpl.
  destruct (r1 <=? 40).
  - destruct (go_deeper p) as [p1|pn] eqn:E; simpl; [| done]. intros [= <-].
    apply mine_ore_wf. by eapply go_deeper_wf.
  - destruct (gen_range_1_100 g1) as [r2 g2]. simpl.
    destruct (r2 <=? 20); [intros [= <-]; apply mine_ore_wf, take_damage_wf; [done | rewrite uint_max_8; lia] |].
    destruct (gen_range_1_100 g2) as [r3 g3]. simpl.
    destruct (r3 <=? 10); intros [= <-]; apply mine_ore_wf; [apply take_damage_wf; [done | rewrite uint_max_8; lia] | done].
Qed.

Lemma mining_step_wf st line st' :
  player_wf (player st) -> mining_step st line = Returns st' -> player_wf (player st').
Proof.
  intros Hwf. unfold mining_step.
  destruct (menu st); try (intros [= <-]; done).
  - case_z; try (intros [= <-]; done).
    destruct (is_alive _); [| intros [= <-]; done].
    destruct (dig (player st) (rng st)) as [pg|pn] eqn:E; simpl; [| done].
    intros [= <-]. simpl. by eapply dig_wf.
  - case_z; [intros [= <-]; done |].
    destruct (can_eat _ _); [| intros [= <-]; done].
    destruct (eat _ _) as [p'|pn] eqn:E; simpl; [| done].
    intros [= <-]. simpl. by eapply eat_wf.
Qed.

Lemma run_mining_left st input : menu st = LeftMine -> input <> [] -> run_mining st input = Returns (st, input).
Proof. destruct input; simpl; [done |]. by intros -> _. Qed.
End DigLemmas.

Lemma read_choice_empty : read_choice EmptyString = -1.
Proof. reflexivity. Qed.

Lemma mine_ore_two_tails p ds : mine_ore p (mkTape (0 :: 0 :: ds)) = (p, mkTape ds).
Proof. unfold mine_ore. destruct (pickaxe_chances _). reflexivity. Qed.

Lemma set_depth_twice d1 d2 p : set_depth d2 (set_depth d1 p) = set_depth d2 p.
Proof. reflexivity. Qed.

Lemma is_alive_set_depth d p : is_alive (set_depth d p) = is_alive p.
Proof. reflexivity. Qed.

Lemma depth_set_depth d p : depth (set_depth d p) = d.
Proof. reflexivity. Qed.

(** A dig whose first draw is 1 and whose two coins are tails goes one
    level deeper and changes nothing else. *)
Lemma lucky_dig_step p ds :
  is_alive p = true -> depth p < uint_max 8 ->
  mining_step (mkMiningState MiningMain p (mkTape (1 :: 0 :: 0 :: ds))) "1"%string =
  Returns (mkMiningState MiningMain (set_depth (depth p + 1) p) (mkTape ds)).
Proof.
  intros Ha Hd. unfold mining_step. simpl menu. cbv [read_choice]. simpl player. rewrite Ha.
  unfold dig, try_starting_event. simpl.
  rewrite go_deeper_depth by done. simpl. by rewrite mine_ore_two_tails.
Qed.

(** The same dig at depth 255 panics. *)
Lemma overflow_dig_step p ds :
  is_alive p = true -> depth p = uint_max 8 ->
  mining_step (mkMiningState MiningMain p (mkTape (1 :: ds))) "1"%string = Panics ArithOverflow.
Proof.
  intros Ha Hd. unfold mining_step. simpl menu. cbv [read_choice]. simpl player. rewrite Ha.
  unfold dig, try_starting_event. simpl. by rewrite go_deeper_overflow.
Qed.

Lemma lucky_digs k p ds input :
  is_alive p = true -> depth p + Z.of_nat k <= uint_max 8 ->
  run_mining (mkMiningState MiningMain p (mkTape (mjoin (replicate k [1; 0; 0]) ++ ds)))
             (replicate k "1"%string ++ input) =
  run_mining (mkMiningState MiningMain (set_depth (depth p + Z.of_nat k) p) (mkTape ds)) input.
Proof.
  revert p. induction k as [|k IH]; intros p Ha Hd.
  - simpl. rewrite Z.add_0_r. by destruct p.
  - rewrite Nat2Z.inj_succ in Hd. simpl. rewrite lucky_dig_step by (done || lia). simpl.
    rewrite IH by (rewrite ?is_alive_set_depth, ?depth_set_depth; done || lia).
    rewrite set_depth_twice, depth_set_depth. do 3 f_equal. lia.
Qed.

Lemma mining_step_eof `{Rng G} (st : MiningState G) :
  menu st <> LeftMine -> exists st', mining_step st EmptyString = Returns st' /\ menu st' <> LeftMine.
Proof.
  intros Hm. unfold mining_step. rewrite read_choice_empty.
  destruct (menu st) eqn:E; simpl.
  - eexists; split; [reflexivity | by rewrite E].
  - unfold can_eat. simpl. eexists; split; [reflexivity | done].
  - eexists; split; [reflexivity | done].
  - eexists; split; [reflexivity | done].
  - done.
Qed.

(** ** Theorems *)

Section DigTheorems.
Context `{Rng G}.

(** C3: [dig] refines the event chain [dig_event]: after the three
    draws it may read, it goes deeper and mines on [Deeper], loses 10
    health and mines on [Hungry], loses 30 and mines on [Explode],
    and only mines on [Nothing]; a later draw is read only when the
    earlier events failed. *)
Theorem dig_refines_event p (g : G) :
  let '(r1, g1) := gen_range_1_100 g in
  let '(r2, g2) := gen_range_1_100 g1 in
  let '(r3, g3) := gen_range_1_100 g2 in
  dig p g = match dig_event r1 r2 r3 with
            | Deeper => let! p' := go_deeper p in Returns (mine_ore p' g1)
            | Hungry => Returns (mine_ore (take_damage 10 p) g2)
            | Explode => Returns (mine_ore (take_damage 30 p) g3)
            | Nothing => Returns (mine_ore p g3)
            end.
Proof.
  unfold dig, try_starting_event, dig_event.
  destruct (gen_range_1_100 g) as [r1 g1], (gen_range_1_100 g1) as [r2 g2], (gen_range_1_100 g2) as [r3 g3].
  simpl. destruct (r1 <=? 40), (r2 <=? 20), (r3 <=? 10); reflexivity.
Qed.

(** C7: Every state the mining menus reach from a well-formed player
    holds a well-formed player: health stays in [0,100], the arrays
    keep their lengths, and the depth stays a [u8] (the one overflow
    is a panic, not a state). *)
Theorem run_mining_wf st input st' rest :
  player_wf (player st) -> run_mining st input = Returns (st', rest) -> player_wf (player st').
Proof.
  revert st. induction input as [|line input IH]; intros st Hwf; simpl.
  - by intros [= <- _].
  - destruct (menu st); try (intros [= <- _]; done);
      (destruct (mining_step st line) as [st1|pn] eqn:E; simpl; [| done]);
      apply IH; by eapply mining_step_wf.
Qed.

(** C27: A player with no health left can never dig again in an
    expedition: entering the mine resets the depth but not the
    health, and every "Go Deeper" leaves the state unchanged. *)
Theorem dead_player_cannot_dig p (g : G) n :
  health p = 0 ->
  go_mining p g (replicate n "1"%string) = Returns (mkMiningState MiningMain (stop_mining p) g, []).
Proof.
  intros Hh. unfold go_mining. induction n as [|n IH]; simpl; [done |].
  unfold mining_step at 1. simpl. unfold is_alive. simpl. rewrite Hh. simpl. exact IH.
Qed.

(** C28: Once the input is exhausted ([read_line] returns an empty
    line forever), the mining menus never reach [LeftMine]: the loop
    does not terminate. *)
Theorem mining_eof_never_leaves st n :
  menu st <> LeftMine ->
  exists st', run_mining st (replicate n EmptyString) = Returns (st', []) /\ menu st' <> LeftMine.
Proof.
  revert st. induction n as [|n IH]; intros st Hm; simpl.
  - by exists st.
  - destruct (mining_step_eof st Hm) as (st1 & -> & Hm1). simpl.
    destruct (menu st); [| | | | done]; simpl; apply IH, Hm1.
Qed.
End DigTheorems.

(** C6: Counted over the [100^3] equally likely draw triples, the
    events of [dig] have weights 40%, 12%, 4.8% and 43.2%: the damage
    events are tried only after the earlier ones failed, on a fresh
    draw each. *)
Theorem dig_event_probabilities :
  (dig_event_weight Deeper, dig_event_weight Hungry, dig_event_weight Explode, dig_event_weight Nothing)
  = (400000, 120000, 48000, 432000).
Proof. vm_compute. reflexivity. Qed.

(** C13: An alive player who gets the lowest draw on 255 digs in a row
    (and no ore) makes the program panic: the depth is a [u8] and
    [go_deeper] overflows at 255. *)
Theorem depth_overflow_panics p :
  is_alive p = true ->
  go_mining p (mkTape (mjoin (replicate 255 [1; 0; 0]))) (replicate 255 "1"%string) = Panics ArithOverflow.
Proof.
  intros Ha. unfold go_mining, stop_mining.
  replace (replicate 255 "1"%string) with (replicate 254 "1"%string ++ ["1"%string]) by reflexivity.
  replace (mjoin (replicate 255 [1; 0; 0])) with (mjoin (replicate 254 [1; 0; 0]) ++ [1; 0; 0]) by reflexivity.
  rewrite lucky_digs by (rewrite ?is_alive_set_depth, ?depth_set_depth, ?uint_max_8; done || lia).
  simpl. rewrite overflow_dig_step; [done | by rewrite !is_alive_set_depth | reflexivity].
Qed.

(** ** Witnesses *)

(** Dig twice (one lucky draw, one small loss), open the food menu, eat
    the apple, leave. *)
Definition sample_input : list string := ["1"; "1"; "2"; "1"; ""; "0"; ""; "3"]%string.
Definition sample_tape : Tape := mkTape [1; 0; 0; 90; 5; 1; 100; 0].

Lemma run_mining_wf_witness :
  player_wf (player (mkMiningState MiningMain hungry_player sample_tape)) /\
  match run_mining (mkMiningState MiningMain hungry_player sample_tape) sample_input with
  | Returns (st', _) => player_wf (player st')
  | Panics _ => False
  end.
Proof.
  split; [exact hungry_player_wf |].
  destruct (run_mining (mkMiningState MiningMain hungry_player sample_tape) sample_input)
    as [[st' rest]|pn] eqn:E; [| vm_compute in E; discriminate].
  exact (run_mining_wf (mkMiningState MiningMain hungry_player sample_tape) sample_input st' rest hungry_player_wf E).
Defined.

Lemma dead_player_cannot_dig_witness :
  health (set_health 0 fresh_player) = 0 /\
  go_mining (set_health 0 fresh_player) sample_tape (replicate 3 "1"%string) =
  Returns (mkMiningState MiningMain (stop_mining (set_health 0 fresh_player)) sample_tape, []).
Proof. split; [reflexivity | apply dead_player_cannot_dig; reflexivity]. Defined.

Lemma mining_eof_never_leaves_witness :
  menu (mkMiningState EatMenu fresh_player sample_tape) <> LeftMine /\
  exists st', run_mining (mkMiningState EatMenu fresh_player sample_tape) (replicate 5 EmptyString) = Returns (st', [])
              /\ menu st' <> LeftMine.
Proof. split; [discriminate | apply mining_eof_never_leaves; discriminate]. Defined.

Lemma depth_overflow_panics_witness :
  is_alive fresh_player = true /\
  go_mining fresh_player (mkTape (mjoin (replicate 255 [1; 0; 0]))) (replicate 255 "1"%string) = Panics ArithOverflow.
Proof. split; [reflexivity | apply depth_overflow_panics; reflexivity]. Defined.
