(* ===== verification/Shop.v ===== *)
(** * Shop: [go_shopping], [sell_ores_menu], [buy_item_menu] of [src/src/main.rs]

    The three shop menus are loops over input lines, modelled like the
    mining menus: [shop_step] consumes one line in the menu the loop is
    in, [run_shop] feeds a list of lines until the player leaves.

    - Selling ([sell_all]) tallies the occupied ore slots with the
      loop of [sell_ores_menu] ([count_ores]), credits
      [iron * 20 + gold * 50 + diamond * 120] with the [u32] [+=]
      (which panics on overflow) and purges the ore slots.
    - Buying checks for a free food slot before it spends, then pushes
      the food; choice 4 upgrades the pickaxe when it is not maxed.

    The theorems: the sale credits exactly the tally and empties the
    ore slots (and panics instead of saturating near the [u32] limit);
    a purchase never takes money without delivering the food or the
    upgrade; every shop step keeps the player invariant and the
    pickaxe level in [1,3]. *)

From S2P Require Import Prelude Items Slots Text Account Inventory Player.

Local Open Scope Z_scope.

(** The counting loop of [sell_ores_menu]. *)
Definition count_ores (os : list (option Ore)) : Z * Z * Z :=
  fold_left (fun (c : Z * Z * Z) o =>
               let '(iron, gold, diamond) := c in
               match o with
               | Some IronOre => (iron + 1, gold, diamond)
               | Some Diamond => (iron, gold, diamond + 1)
               | Some GoldOre => (iron, gold + 1, diamond)
               | None => (iron, gold, diamond)
               end) os (0, 0, 0).

(** [iron_count * 20 + gold_count * 50 + diamond_count * 120] *)
Definition sale_value (c : Z * Z * Z) : Z :=
  let '(iron, gold, diamond) := c in iron * 20 + gold * 50 + diamond * 120.

(** "Sell all": [player.account.money += total_added_money;
    player.purge_inventory();] *)
Definition sell_all (p : Player) : Outcome Player :=
  let total := sale_value (count_ores (ores (inventory p))) in
  let! m := add_u 32 (money (account p)) total in
  Returns (purge_inventory (set_money m p)).

(** The food offers of [buy_item_menu]: price and food per choice. *)
Definition food_offer (choice : Z) : option (Z * Food) :=
  if choice =? 1 then Some (30, Apple)
  else if choice =? 2 then Some (70, Chicken)
  else if choice =? 3 then Some (90, Beef)
  else None.

(** Where the shop loops are. *)
Inductive ShopMenu : Type :=
| ShopMain   (** the [loop] of [go_shopping] *)
| SellMenu   (** the [loop] of [sell_ores_menu] *)
| BuyMenu    (** the [loop] of [buy_item_menu], reading a choice *)
| BuyWait    (** [wait_for_enter] inside [buy_item_menu] *)
| LeftShop.  (** [go_shopping] has returned *)

#[export] Instance ShopMenu_eq_dec : EqDecision ShopMenu.
Proof. solve_decision. Defined.

(** One iteration of [buy_item_menu] on the choice read. *)
Definition buy_step (choice : Z) (p : Player) : ShopMenu * Player :=
  if (choice =? 4) && negb (is_pickaxe_maxed p) then
    match spend (upgrade_pickaxe_cost p) p with
    | Ok p' => (BuyWait, upgrade_pickaxe p')
    | Err _ => (BuyWait, p)
    end
  else
    match food_offer choice with
    | Some (price, food) =>
        if negb (has_free (foods (inventory p))) then (BuyMenu, p)
        else match spend price p with
             | Err _ => (BuyWait, p)
             | Ok p' => (BuyMenu, set_inventory (push_food food (inventory p')) p')
             end
    | None => if (choice =? 4) || (choice =? 5) then (ShopMain, p) else (BuyMenu, p)
    end.

(** One line of input in the shop menus. *)
Definition shop_step (menu : ShopMenu) (p : Player) (line : string) : Outcome (ShopMenu * Player) :=
  match menu with
  | ShopMain =>
      let choice := read_choice line in
      if choice =? 1 then Returns (SellMenu, p)
      else if choice =? 2 then Returns (BuyMenu, p)
      else if choice =? 3 then Returns (LeftShop, p)
      else Returns (ShopMain, p)
  | SellMenu =>
      let choice := read_choice line in
      if choice =? 2 then Returns (ShopMain, p)
      else if negb (choice =? 1) then Returns (ShopMain, p)
      else let! p' := sell_all p in Returns (SellMenu, p')
  | BuyMenu => Returns (buy_step (read_choice line) p)
  | BuyWait => Returns (BuyMenu, p)
  | LeftShop => Returns (LeftShop, p)
  end.

(** The loop over the input lines, until the player leaves the shop. *)
Fixpoint run_shop (menu : ShopMenu) (p : Player) (input : list string) : Outcome (ShopMenu * Player * list string) :=
  match input with
  | [] => Returns (menu, p, [])
  | line :: rest =>
      match menu with
      | LeftShop => Returns (menu, p, input)
      | _ => let! mp := shop_step menu p line in run_shop (fst mp) (snd mp) rest
      end
  end.

(** [go_shopping] *)
Definition go_shopping (p : Player) (input : list string) : Outcome (ShopMenu * Player * list string) :=
  run_shop ShopMain p input.

(** The number of occupied slots holding [o]. *)
Definition count_kind (o : Ore) (os : list (option Ore)) : Z :=
  Z.of_nat (length (filter (fun o' => o' = o) (occupied os))).

(** ** Lemmas *)

Lemma triple_eq {A B C} (a a' : A) (b b' : B) (c c' : C) : a = a' -> b = b' -> c = c' -> (a, b, c) = (a', b', c').
Proof. by intros -> -> ->. Qed.

Lemma count_kind_nil o : count_kind o [] = 0.
Proof. reflexivity. Qed.

Lemma count_kind_none o os : count_kind o (None :: os) = count_kind o os.
Proof. reflexivity. Qed.

Lemma count_kind_some o o' os :
  count_kind o (Some o' :: os) = (if decide (o' = o) then 1 else 0) + count_kind o os.
Proof. unfold count_kind. simpl. rewrite filter_cons. case_decide; simpl; lia. Qed.

Lemma count_kind_nonneg o os : 0 <= count_kind o os.
Proof. unfold count_kind. lia. Qed.

Lemma count_ores_acc os i g d :
  fold_left (fun (c : Z * Z * Z) o =>
               let '(iron, gold, diamond) := c in
               match o with
               | Some IronOre => (iron + 1, gold, diamond)
               | Some Diamond => (iron, gold, diamond + 1)
               | Some GoldOre => (iron, gold + 1, diamond)
               | None => (iron, gold, diamond)
               end) os (i, g, d) =
  (i + count_kind IronOre os, g + count_kind GoldOre os, d + count_kind Diamond os).
Proof.
  revert i g d. induction os as [|[o|] os IH]; intros i g d; simpl.
  - rewrite !count_kind_nil. apply triple_eq; lia.
  - rewrite !count_kind_some. destruct o; rewrite IH; repeat case_decide; simplify_eq;
      apply triple_eq; lia.
  - rewrite !count_kind_none. apply IH.
Qed.

(** The tally of [sell_ores_menu] counts each kind among the occupied slots. *)
Lemma count_ores_spec os :
  count_ores os = (count_kind IronOre os, count_kind GoldOre os, count_kind Diamond os).
Proof. unfold count_ores. by rewrite count_ores_acc. Qed.

Lemma count_kind_total os :
  count_kind IronOre os + count_kind GoldOre os + count_kind Diamond os = Z.of_nat (length (occupied os)).
Proof.
  induction os as [|[o|] os IH]; simpl; [done | |].
  - rewrite !count_kind_some. destruct o; repeat case_decide; simplify_eq; lia.
  - by rewrite !count_kind_none.
Qed.

Lemma sale_value_bound os :
  0 <= sale_value (count_ores os) <= 120 * Z.of_nat (length (occupied os)).
Proof.
  rewrite count_ores_spec. simpl. rewrite <- count_kind_total.
  pose proof (count_kind_nonneg IronOre os). pose proof (count_kind_nonneg GoldOre os).
  pose proof (count_kind_nonneg Diamond os). lia.
Qed.

Lemma sale_value_wf p : player_wf p -> 0 <= sale_value (count_ores (ores (inventory p))) <= 2400.
Proof.
  intros (_ & [Ho _] & _). pose proof (sale_value_bound (ores (inventory p))).
  pose proof (length_occupied_le (ores (inventory p))). rewrite Ho in *. unfold ORE_SLOTS in *. lia.
Qed.

Lemma sell_all_wf p p' : player_wf p -> sell_all p = Returns p' -> player_wf p'.
Proof.
  intros Hwf. pose proof (sale_value_wf p Hwf). unfold sell_all, add_u. case_z; simpl; [| done].
  intros [= <-]. apply purge_inventory_wf, player_wf_set_money; [done |].
  destruct Hwf as ((Hm & _) & _). lia.
Qed.

Lemma level_ok_set_inventory i p : level_ok (set_inventory i p) <-> level_ok p.
Proof. done. Qed.

Lemma spend_level_ok amount p p' : spend amount p = Ok p' -> pickaxe_level (account p') = pickaxe_level (account p).
Proof. unfold spend. case_z; [by intros [= <-] | done]. Qed.

Lemma spend_wf_level amount p p' :
  player_wf p -> level_ok p -> 0 <= amount -> spend amount p = Ok p' -> player_wf p' /\ level_ok p'.
Proof.
  intros Hwf Hl Ha Hs. split; [by eapply spend_wf |].
  unfold level_ok. by rewrite (spend_level_ok amount p p' Hs).
Qed.

Lemma upgrade_pickaxe_level_ok p : level_ok p -> level_ok (upgrade_pickaxe p).
Proof. unfold level_ok. rewrite upgrade_pickaxe_level. case_z; lia. Qed.

(** The three things a step of [buy_item_menu] can do. *)
Lemma buy_step_cases choice p :
  snd (buy_step choice p) = p \/
  (exists price food,
     food_offer choice = Some (price, food) /\ has_free (foods (inventory p)) = true /\
     price <= money (account p) /\
     snd (buy_step choice p) =
       set_inventory (push_food food (inventory p)) (set_money (money (account p) - price) p)) \/
  (choice = 4 /\ pickaxe_level (account p) < 3 /\ upgrade_pickaxe_cost p <= money (account p) /\
   snd (buy_step choice p) = upgrade_pickaxe (set_money (money (account p) - upgrade_pickaxe_cost p) p)).
Proof.
  unfold buy_step, is_pickaxe_maxed. rewrite Z.geb_leb.
  destruct (Z.eqb_spec choice 4) as [->|Hc]; simpl.
  - destruct (Z.leb_spec 3 (pickaxe_level (account p))) as [Hm|Hm]; simpl; [by left |].
    unfold spend. destruct (Z.leb_spec (upgrade_pickaxe_cost p) (money (account p))) as [Hs|Hs]; simpl.
    + right; right. split_and!; done || lia.
    + by left.
  - destruct (food_offer choice) as [[price food]|] eqn:Ef; [| by destruct (choice =? 5); left].
    destruct (has_free (foods (inventory p))) eqn:Hf; simpl; [| by left].
    unfold spend. case_z; [| by left].
    right; left. exists price, food. split_and!; done.
Qed.

Lemma food_offer_price choice price food : food_offer choice = Some (price, food) -> 0 <= price.
Proof. unfold food_offer. case_z; intros [= <- _]; lia. Qed.

Lemma buy_step_wf choice p : player_wf p -> player_wf (snd (buy_step choice p)).
Proof.
  intros Hwf. pose proof Hwf as ((Hm & Hl) & _).
  destruct (buy_step_cases choice p) as [-> | [(price & food & Ho & Hf & Hp & ->) | (-> & Hlt & Hc & ->)]].
  - done.
  - pose proof (food_offer_price _ _ _ Ho).
    apply player_wf_set_inventory; [apply player_wf_set_money; [done | lia] |].
    apply push_food_wf, Hwf.
  - apply upgrade_pickaxe_wf, player_wf_set_money; [done |]. unfold upgrade_pickaxe_cost in *. lia.
Qed.

Lemma buy_step_level_ok choice p : level_ok p -> level_ok (snd (buy_step choice p)).
Proof.
  intros Hl.
  destruct (buy_step_cases choice p) as [-> | [(price & food & Ho & Hf & Hp & ->) | (-> & Hlt & Hc & ->)]].
  - done.
  - done.
  - apply upgrade_pickaxe_level_ok. done.
Qed.

Lemma sell_all_level p p' : sell_all p = Returns p' -> pickaxe_level (account p') = pickaxe_level (account p).
Proof. unfold sell_all, add_u. case_z; simpl; [| done]. by intros [= <-]. Qed.

Lemma shop_step_wf menu p line menu' p' :
  player_wf p -> shop_step menu p line = Returns (menu', p') -> player_wf p'.
Proof.
  intros Hwf. unfold shop_step. destruct menu.
  - case_z; intros [= <- <-]; done.
  - case_z; simpl; try (intros [= <- <-]; done).
    destruct (sell_all p) as [p1|pn] eqn:E; simpl; [| done]. intros [= <- <-]. by eapply sell_all_wf.
  - intros [= E]. pose proof (buy_step_wf (read_choice line) p Hwf) as H. rewrite E in H. exact H.
  - by intros [= <- <-].
  - by intros [= <- <-].
Qed.

Lemma shop_step_level_ok menu p line menu' p' :
  level_ok p -> shop_step menu p line = Returns (menu', p') -> level_ok p'.
Proof.
  intros Hl. unfold shop_step. destruct menu.
  - case_z; intros [= <- <-]; done.
  - case_z; simpl; try (intros [= <- <-]; done).
    destruct (sell_all p) as [p1|pn] eqn:E; simpl; [| done]. intros [= <- <-].
    unfold level_ok. by rewrite (sell_all_level p p1 E).
  - intros [= E]. pose proof (buy_step_level_ok (read_choice line) p Hl) as H. rewrite E in H. exact H.
  - by intros [= <- <-].
  - by intros [= <- <-].
Qed.

(** ** Theorems *)

(** C8: Selling all ores credits [20] per iron ore, [50] per gold ore
    and [120] per diamond among the occupied slots, empties every ore
    slot and changes nothing else; when the [u32] balance would pass
    [2^32 - 1] the addition panics instead. *)
Theorem sell_all_spec p :
  let os := ores (inventory p) in
  let value := 20 * count_kind IronOre os + 50 * count_kind GoldOre os + 120 * count_kind Diamond os in
  sell_all p =
  if money (account p) + value <=? uint_max 32
  then Returns (set_inventory {| ores := clear_all os; foods := foods (inventory p) |}
                              (set_money (money (account p) + value) p))
  else Panics ArithOverflow.
Proof.
  simpl. unfold sell_all. rewrite count_ores_spec. simpl. unfold add_u.
  replace (count_kind IronOre (ores (inventory p)) * 20 + count_kind GoldOre (ores (inventory p)) * 50 +
           count_kind Diamond (ores (inventory p)) * 120)
    with (20 * count_kind IronOre (ores (inventory p)) + 50 * count_kind GoldOre (ores (inventory p)) +
          120 * count_kind Diamond (ores (inventory p))) by lia.
  by case_z.
Qed.

(** C9: A step of [buy_item_menu] either leaves the player exactly as
    it was (no free food slot, not enough money, a return or an
    unknown choice), or takes the price of an offered food that fits
    in a free slot and adds it, or takes the upgrade cost of a pickaxe
    below level 3 and upgrades it: money is never taken without the
    item. *)
Theorem buy_step_no_loss choice p :
  snd (buy_step choice p) = p \/
  (exists price food,
     food_offer choice = Some (price, food) /\ has_free (foods (inventory p)) = true /\
     price <= money (account p) /\
     snd (buy_step choice p) =
       set_inventory (push_food food (inventory p)) (set_money (money (account p) - price) p)) \/
  (choice = 4 /\ pickaxe_level (account p) < 3 /\ upgrade_pickaxe_cost p <= money (account p) /\
   snd (buy_step choice p) = upgrade_pickaxe (set_money (money (account p) - upgrade_pickaxe_cost p) p)).
Proof. apply buy_step_cases. Qed.

(** C19: Every state the shop menus reach from a well-formed player
    with a pickaxe level in [1,3] holds such a player. *)
Theorem run_shop_wf menu p input menu' p' rest :
  player_wf p -> level_ok p -> run_shop menu p input = Returns (menu', p', rest) ->
  player_wf p' /\ level_ok p'.
Proof.
  revert menu p. induction input as [|line input IH]; intros menu p Hwf Hl; simpl.
  - by intros [= _ <- _].
  - destruct menu; try (by intros [= _ <- _]);
      (destruct (shop_step _ p line) as [[m1 p1]|pn] eqn:E; simpl; [| done]);
      (apply IH; [by eapply shop_step_wf | by eapply shop_step_level_ok]).
Qed.

(** ** Witnesses *)

(** The spec's example: two iron ores and one gold ore sell for 90. *)
Definition seller : Player :=
  set_inventory (push_ore IronOre (push_ore GoldOre (push_ore IronOre create_empty))) fresh_player.

Example sell_two_iron_one_gold :
  sell_all seller = Returns (set_inventory create_empty (set_money 190 fresh_player)).
Proof. vm_compute. reflexivity. Qed.

(** Sell, buy an apple, upgrade the pickaxe (not enough money), leave. *)
Definition shop_input : list string := ["1"; "1"; "2"; "2"; "1"; "4"; ""; "5"; "3"]%string.

Lemma run_shop_wf_witness :
  (player_wf seller /\ level_ok seller) /\
  match run_shop ShopMain seller shop_input with
  | Returns (_, p', _) => player_wf p' /\ level_ok p'
  | Panics _ => False
  end.
Proof.
  assert (player_wf seller) as Hwf by (unfold player_wf, account_wf, inventory_wf; solve_concrete).
  assert (level_ok seller) as Hl by solve_concrete.
  split; [done |].
  destruct (run_shop ShopMain seller shop_input) as [[[m' p'] rest]|pn] eqn:E; [| vm_compute in E; discriminate].
  exact (run_shop_wf ShopMain seller shop_input m' p' rest Hwf Hl E).
Defined.
