(* ===== verification/Session.v ===== *)
(** * Session: [main], [register_menu], [login_menu], [play_game] of [src/src/main.rs]

    The whole program as a state machine over input lines.  A
    [Session] holds the screen the program is on (the nested loops of
    [main], [register_menu], [login_menu], [play_game] and the mining
    and shop menus), the roster of players, the random generator and
    the two files.  [session_step] consumes one line; [main] loads
    the roster from the files ([load_players]) and [main] saves both
    files after every cycle of its loop ([save]).  The roster is sorted
    by money, highest first, with a stable sort ([sort_players], the
    [sort_by(|a, b| b.cmp(a))] of [login_menu]) before each choice of
    an account.

    The theorems: the sort orders by money, permutes the roster and is
    stable; registration accepts exactly the alphanumeric names (the
    empty one included), and those names can be stored; every session
    [main] reaches from a successful load holds well-formed players and
    plays a player of the roster (by rule induction on [reachable]); the
    account file written at a save reads back as the roster's accounts. *)

From S2P Require Import Prelude Items Slots Text Account Inventory Rng Player Mining Shop.
From Stdlib Require Import Ascii Permutation Sorted.

Local Open Scope Z_scope.

(** ** Registration *)

(** [char::is_alphanumeric] on ASCII: a letter or a digit.  A byte of a
    multi-byte character is not alphanumeric here. *)
Definition is_alphanumeric (a : ascii) : bool :=
  let n := nat_of_ascii a in
  ((48 <=? n)%nat && (n <=? 57)%nat) || ((65 <=? n)%nat && (n <=? 90)%nat) ||
  ((97 <=? n)%nat && (n <=? 122)%nat).

(** [is_alphanumeric_string]: [input.chars().all(|c| c.is_alphanumeric())]. *)
Fixpoint is_alphanumeric_string (s : string) : bool :=
  match s with
  | EmptyString => true
  | String a rest => is_alphanumeric a && is_alphanumeric_string rest
  end.

(** ** The roster sort *)

(** Insert [p] before the first player with no more money: a stable
    insertion, since the players already sorted came after [p]. *)
Fixpoint insert_by_money (p : Player) (l : list Player) : list Player :=
  match l with
  | [] => [p]
  | q :: rest => if money (account q) <=? money (account p) then p :: q :: rest
                 else q :: insert_by_money p rest
  end.

(** [players.sort_by(|a, b| b.cmp(a))]: a stable sort, money descending. *)
Fixpoint sort_players (l : list Player) : list Player :=
  match l with
  | [] => []
  | p :: rest => insert_by_money p (sort_players rest)
  end.

(** ** Screens and sessions *)

Inductive GameScreen : Type :=
| PlayMenu                   (** the [loop] of [play_game] *)
| InMine (m : MiningMenu)    (** inside [go_mining] *)
| InShop (m : ShopMenu).     (** inside [go_shopping] *)

Inductive Screen : Type :=
| MainMenu                   (** the [loop] of [main] *)
| RegisterName               (** the [loop] of [register_menu] *)
| RegisterWait               (** [wait_for_enter] after registration *)
| NoAccountWait              (** [wait_for_enter] of [login_menu] with no account *)
| LoginMenu                  (** the [loop] of [login_menu] *)
| Playing (index : nat) (g : GameScreen)  (** [play_game(&mut players[index])] *)
| Exited.                    (** [main] has returned *)

Record Session (G : Type) : Type := mkSession {
  screen : Screen;
  roster : list Player;
  generator : G;
  account_file : option string;
  inventory_file : option string
}.
Arguments mkSession {G} _ _ _ _ _.
Arguments screen {G} _.
Arguments roster {G} _.
Arguments generator {G} _.
Arguments account_file {G} _.
Arguments inventory_file {G} _.

(** The save at the end of each cycle of [main]. *)
Definition save {G} (s : Session G) : Session G :=
  mkSession MainMenu (roster s) (generator s)
    (Some (update_account_file (map account (roster s))))
    (Some (update_inventory_file (roster s))).

(** The start of [main]: every account of the account file with its
    inventory ([unwrap_or(Inventory::create_empty())] when the
    inventory file cannot be read). *)
Definition load_players (account_text : option string) (inventory_text : option string)
  : Result (list Player) IoError :=
  match parse_account_file account_text with
  | Err e => Err e
  | Ok accounts =>
      Ok (map (fun a => new (match search_inventory_file inventory_text (username a) with
                             | Ok inv => inv
                             | Err _ => create_empty
                             end) a) accounts)
  end.

Definition with_player {G} (s : Session G) (i : nat) (p : Player) (sc : Screen) (g : G) : Session G :=
  mkSession sc (<[i := p]> (roster s)) g (account_file s) (inventory_file s).

Definition with_screen {G} (s : Session G) (sc : Screen) : Session G :=
  mkSession sc (roster s) (generator s) (account_file s) (inventory_file s).

Section Step.
Context `{Rng G}.

(** One line of input anywhere in the program. *)
Definition session_step (s : Session G) (line : string) : Outcome (Session G) :=
  match screen s with
  | MainMenu =>
      let choice := read_choice line in
      if choice =? 1 then
        if bool_decide (roster s = []) then Returns (with_screen s NoAccountWait)
        else Returns (with_screen s LoginMenu)
      else if choice =? 2 then Returns (with_screen s RegisterName)
      else if choice =? 3 then Returns (with_screen s Exited)
      else Returns (save s)
  | RegisterName =>
      let input := trim line in
      if is_alphanumeric_string input then
        Returns (mkSession RegisterWait (roster s ++ [new create_empty (new_account input)])
                   (generator s) (account_file s) (inventory_file s))
      else Returns s
  | RegisterWait => Returns (save s)
  | NoAccountWait => Returns (save s)
  | LoginMenu =>
      let sorted := sort_players (roster s) in
      let input := read_choice line in
      let s' := mkSession LoginMenu sorted (generator s) (account_file s) (inventory_file s) in
      if input =? 0 then Returns (save s')
      else if input <? 0 then Returns s'
      else if (length sorted <=? Z.to_nat (input - 1))%nat then Returns s'
      else Returns (with_screen s' (Playing (Z.to_nat (input - 1)) PlayMenu))
  | Playing i PlayMenu =>
      match roster s !! i with
      | None => Returns s
      | Some p =>
          let choice := read_choice line in
          if choice =? 1 then Returns (with_player s i (stop_mining p) (Playing i (InMine MiningMain)) (generator s))
          else if choice =? 2 then Returns (with_screen s (Playing i (InShop ShopMain)))
          else if choice =? 3 then Returns (with_screen s LoginMenu)
          else Returns s
      end
  | Playing i (InMine m) =>
      match roster s !! i with
      | None => Returns s
      | Some p =>
          let! st := mining_step (mkMiningState m p (generator s)) line in
          let sc := match menu st with
                    | LeftMine => Playing i PlayMenu
                    | m' => Playing i (InMine m')
                    end in
          Returns (with_player s i (player st) sc (rng st))
      end
  | Playing i (InShop m) =>
      match roster s !! i with
      | None => Returns s
      | Some p =>
          let! mp := shop_step m p line in
          let sc := match fst mp with
                    | LeftShop => Playing i PlayMenu
                    | m' => Playing i (InShop m')
                    end in
          Returns (with_player s i (snd mp) sc (generator s))
      end
  | Exited => Returns s
  end.

(** The program run on a list of input lines. *)
Fixpoint run_session (s : Session G) (input : list string) : Outcome (Session G) :=
  match input with
  | [] => Returns s
  | line :: rest => let! s' := session_step s line in run_session s' rest
  end.

(** [main]: load the roster, then run the loop. *)
Definition main (account_text inventory_text : option string) (g : G) (input : list string)
  : Result (Outcome (Session G)) IoError :=
  match load_players account_text inventory_text with
  | Err e => Err e
  | Ok players => Ok (run_session (mkSession MainMenu players g account_text inventory_text) input)
  end.

(** The sessions the program can be in, from a successful load. *)
Inductive reachable : Session G -> Prop :=
| reachable_start account_text inventory_text g players :
    load_players account_text inventory_text = Ok players ->
    reachable (mkSession MainMenu players g account_text inventory_text)
| reachable_step s line s' :
    reachable s -> session_step s line = Returns s' -> reachable s'.
End Step.

(** [p] is listed before [q] by the roster sort: it has at least as much money. *)
Definition richer (p q : Player) : Prop := money (account q) <= money (account p).

(** What every reachable session satisfies. *)
Definition session_ok {G} (s : Session G) : Prop :=
  Forall player_wf (roster s) /\
  (forall i g, screen s = Playing i g -> (i < length (roster s))%nat).

(** ** Lemmas: the sort *)

Lemma insert_by_money_perm p l : insert_by_money p l ≡ₚ p :: l.
Proof.
  induction l as [|q l IH]; simpl; [done |]. case_z; [done |].
  rewrite IH. apply perm_swap.
Qed.

Lemma sort_players_perm l : sort_players l ≡ₚ l.
Proof. induction l as [|p l IH]; simpl; [done |]. by rewrite insert_by_money_perm, IH. Qed.

Lemma HdRel_insert_by_money q p l :
  HdRel richer q l -> richer q p -> HdRel richer q (insert_by_money p l).
Proof.
  intros Hq Hqp. destruct l as [|r l]; simpl; [by constructor |].
  case_z; constructor; [done |]. by inversion Hq.
Qed.

Lemma insert_by_money_sorted p l : Sorted richer l -> Sorted richer (insert_by_money p l).
Proof.
  induction 1 as [|q l Hs IH Hhd]; simpl; [by repeat constructor |].
  unfold richer at 1. case_z.
  - constructor; [by constructor | constructor; unfold richer; lia].
  - constructor; [exact IH |]. apply HdRel_insert_by_money; [done | unfold richer; lia].
Qed.

Lemma insert_by_money_filter p l m :
  filter (fun q => money (account q) = m) (insert_by_money p l) =
  filter (fun q => money (account q) = m) (p :: l).
Proof.
  induction l as [|q l IH]; simpl; [done |]. case_z; [done |].
  rewrite !filter_cons in *. rewrite IH.
  repeat case_decide; try done; lia.
Qed.

Lemma sort_players_filter l m :
  filter (fun q => money (account q) = m) (sort_players l) = filter (fun q => money (account q) = m) l.
Proof.
  induction l as [|p l IH]; simpl; [done |].
  rewrite insert_by_money_filter, !filter_cons. by rewrite IH.
Qed.

(** ** Lemmas: loading and stepping *)

Lemma parse_token_wf inv t : inventory_wf inv -> inventory_wf (parse_token inv t).
Proof.
  unfold parse_token. intros Hwf.
  destruct (Food_from_string t); [by apply push_food_wf |].
  destruct (Ore_from_string t); [by apply push_ore_wf | done].
Qed.

Lemma parse_inventory_string_wf line inv : parse_inventory_string line = Ok inv -> inventory_wf inv.
Proof.
  unfold parse_inventory_string. intros [= <-].
  generalize create_empty_wf. generalize create_empty.
  induction (split_char _ line) as [|t ts IH]; intros i Hi; simpl; [done |].
  apply IH, parse_token_wf, Hi.
Qed.

Lemma search_lines_wf name ls : inventory_wf (search_lines name ls).
Proof.
  induction ls as [|l ls IH]; simpl; [apply create_empty_wf |].
  destruct (String.prefix name l); [| done].
  destruct (parse_inventory_string l) as [inv|e] eqn:E; [| done].
  by eapply parse_inventory_string_wf.
Qed.

Lemma new_wf inv a : inventory_wf inv -> account_wf a -> player_wf (new inv a).
Proof. intros Hi Ha. repeat split; simpl; try apply Ha; try apply Hi; rewrite ?uint_max_8; lia. Qed.

Lemma parse_account_file_wf text accounts :
  parse_account_file (Some text) = Ok accounts -> Forall account_wf accounts.
Proof.
  simpl. intros [= <-]. induction (lines text) as [|l ls IH]; simpl; [done |].
  destruct (parse_account_string l) as [a|e] eqn:E; simpl; [| done].
  constructor; [by eapply parsed_account_wf | done].
Qed.

Lemma load_players_wf at_ it_ players : load_players at_ it_ = Ok players -> Forall player_wf players.
Proof.
  unfold load_players. destruct (parse_account_file at_) as [accounts|e] eqn:E; [| done].
  intros [= <-]. destruct at_ as [text|]; [| done].
  apply parse_account_file_wf in E.
  apply Forall_map. revert E. apply Forall_impl. intros a Ha. apply new_wf; [| done].
  destruct (search_inventory_file it_ (username a)) as [inv|e] eqn:Es; [| apply create_empty_wf].
  destruct it_; simpl in Es; [| done]. injection Es as <-. apply search_lines_wf.
Qed.

Lemma new_account_wf name : account_wf (new_account name).
Proof. unfold account_wf; simpl. rewrite uint_max_8, uint_max_32. lia. Qed.

Lemma save_ok {G} (s : Session G) : session_ok s -> session_ok (save s).
Proof. intros [Hwf _]. split; [done | discriminate]. Qed.

Lemma with_screen_ok {G} (s : Session G) sc :
  session_ok s -> (forall i g, sc = Playing i g -> (i < length (roster s))%nat) ->
  session_ok (with_screen s sc).
Proof. intros [Hwf _] Hi. split; [done | exact Hi]. Qed.

Lemma with_player_ok {G} (s : Session G) i p p' gs (g : G) :
  session_ok s -> roster s !! i = Some p -> player_wf p' ->
  session_ok (with_player s i p' (Playing i gs) g).
Proof.
  intros [Hwf _] Hi Hp. split; simpl.
  - by apply Forall_insert.
  - intros j g' [= <- _]. rewrite length_insert. by eapply lookup_lt_Some.
Qed.

Lemma lookup_player_wf {G} (s : Session G) i p : session_ok s -> roster s !! i = Some p -> player_wf p.
Proof. intros [Hwf _] Hi. by eapply Forall_lookup_1. Qed.

Lemma playing_index {G} (s : Session G) i p gs :
  roster s !! i = Some p -> forall j g, Playing i gs = Playing j g -> (j < length (roster s))%nat.
Proof. intros Hi j g [= <- _]. by eapply lookup_lt_Some. Qed.

#[local] Hint Resolve save_ok with_player_ok lookup_player_wf stop_mining_wf : craft.

Lemma login_ok {G} (s : Session G) sc :
  session_ok s -> (forall i g, sc = Playing i g -> (i < length (sort_players (roster s)))%nat) ->
  session_ok (mkSession sc (sort_players (roster s)) (generator s) (account_file s) (inventory_file s)).
Proof. intros [Hwf _] Hi. split; [simpl; by rewrite sort_players_perm | exact Hi]. Qed.

Lemma session_step_ok `{Rng G} (s s' : Session G) line :
  session_ok s -> session_step s line = Returns s' -> session_ok s'.
Proof.
  intros Hok. unfold session_step.
  destruct (screen s) as [| | | | |i [|m|m]|] eqn:Hsc.
  - case_z; try case_bool_decide; intros [= <-]; eauto with craft;
      apply with_screen_ok; congruence.
  - destruct (is_alphanumeric_string _); intros [= <-]; [| done].
    destruct Hok as [Hwf _]. split; [| discriminate].
    apply Forall_app; split; [done |]. constructor; [| done].
    apply new_wf; [apply create_empty_wf | apply new_account_wf].
  - intros [= <-]; eauto with craft.
  - intros [= <-]; eauto with craft.
  - case_z; [| | | destruct (Nat.leb_spec (length (sort_players (roster s))) (Z.to_nat (read_choice line - 1)))];
      intros [= <-]; try (apply save_ok); cbn [with_screen roster generator account_file inventory_file]; apply (login_ok s); try congruence.
  - destruct (roster s !! i) as [p|] eqn:Hi; [| by intros [= <-]].
    case_z; intros [= <-]; eauto with craft;
      apply with_screen_ok; eauto using playing_index; congruence.
  - destruct (roster s !! i) as [p|] eqn:Hi; [| by intros [= <-]].
    destruct (mining_step _ line) as [st|pn] eqn:E; simpl; [| done]. intros [= <-].
    assert (player_wf (player st)) by (eapply mining_step_wf; [| exact E]; eauto with craft).
    destruct (menu st); eauto with craft.
  - destruct (roster s !! i) as [p|] eqn:Hi; [| by intros [= <-]].
    destruct (shop_step m p line) as [[m' p']|pn] eqn:E; simpl; [| done]. intros [= <-].
    assert (player_wf p') by (eapply shop_step_wf; [| exact E]; eauto with craft).
    destruct m'; eauto with craft.
  - by intros [= <-].
Qed.

Lemma run_session_reachable `{Rng G} (s s' : Session G) input :
  reachable s -> run_session s input = Returns s' -> reachable s'.
Proof.
  revert s. induction input as [|line rest IH]; intros s Hr; simpl; [by intros [= <-] |].
  destruct (session_step s line) as [s1|pn] eqn:E; simpl; [| done].
  apply IH. by eapply reachable_step.
Qed.

Lemma reachable_ok `{Rng G} (s : Session G) : reachable s -> session_ok s.
Proof.
  induction 1 as [at_ it_ g players Hload|s line s' _ IH Hstep].
  - split; [by eapply load_players_wf | discriminate].
  - by eapply session_step_ok.
Qed.

Lemma storable_new_account name :
  is_alphanumeric_string name = true ->
  storable (new_account name) = true /\ char_free ";"%char name = true.
Proof.
  intros Ha. unfold storable, line_ok; simpl.
  assert (Hc : forall c, is_alphanumeric c = false -> char_free c name = true).
  { induction name as [|a rest IH]; simpl in *; [done |].
    intros c Hc. apply andb_prop in Ha as [Ha1 Ha2].
    rewrite IH by done. destruct (Ascii.eqb_spec a c) as [->|]; [congruence | done]. }
  rewrite !Hc by reflexivity. split; reflexivity.
Qed.

(** ** Theorems *)

(** C16: The roster sort of [login_menu] orders the players by money,
    highest first, keeps the same players, and is stable: the players
    with any one amount of money keep their relative order. *)
Theorem sort_players_spec l :
  Sorted richer (sort_players l) /\ sort_players l ≡ₚ l /\
  forall m, filter (fun q => money (account q) = m) (sort_players l) =
            filter (fun q => money (account q) = m) l.
Proof.
  split_and!; [| apply sort_players_perm | apply sort_players_filter].
  induction l; simpl; [constructor | by apply insert_by_money_sorted].
Qed.

(** C2: Every session [main] reaches on any input, from any account and
    inventory files it can load, holds well-formed players (money in
    [u32], health in [0..=100], depth in [1..=255], full-size inventories)
    and plays only a player of the roster. *)
Theorem main_session_ok `{Rng G} account_text inventory_text (g : G) input (s : Session G) :
  main account_text inventory_text g input = Ok (Returns s) -> session_ok s.
Proof.
  unfold main. destruct (load_players _ _) as [players|e] eqn:E; [| done]. intros [= Hrun].
  apply reachable_ok. eapply run_session_reachable; [| exact Hrun]. by apply reachable_start.
Qed.

(** C24: A name that registration accepts (alphanumeric) is one the
    account file can carry, and it holds no [';'], the separator of the
    inventory file. *)
Theorem registered_account_storable name :
  is_alphanumeric_string name = true ->
  storable (new_account name) = true /\ char_free ";"%char name = true.
Proof. apply storable_new_account. Qed.

(** C15: The account file written by a save reads back, at the next
    start of [main], as the accounts of the roster in order, each player
    loaded with health 100 at depth 1, when every account is storable. *)
Theorem save_reload_accounts {G} (s : Session G) :
  Forall (fun p => storable (account p) = true) (roster s) ->
  exists players,
    load_players (account_file (save s)) (inventory_file (save s)) = Ok players /\
    map account players = map account (roster s) /\
    Forall (fun p => health p = 100 /\ depth p = 1) players.
Proof.
  intros Hst. unfold load_players; cbn [save account_file inventory_file]. rewrite account_file_roundtrip.
  - eexists; split; [reflexivity |]. split.
    + rewrite map_map. apply map_id.
    + apply Forall_map, Forall_forall. done.
  - by apply Forall_map.
Qed.

(** C29: Registration accepts the empty name: on the name prompt of
    any session, a line that trims to nothing (an empty or blank line)
    appends a player with the empty username to the roster, and the
    next line saves it to both files. *)
Theorem register_accepts_empty_name `{Rng G} (s : Session G) line next :
  screen s = RegisterName -> trim line = EmptyString ->
  exists s', session_step s line = Returns s' /\
    screen s' = RegisterWait /\
    roster s' = roster s ++ [new create_empty (new_account "")] /\
    session_step s' next = Returns (save s').
Proof.
  intros Hs Ht. unfold session_step at 1. rewrite Hs, Ht.
  eexists; split; [reflexivity |]. split_and!; reflexivity.
Qed.

(** ** Witnesses *)

Definition steve_file : string := unlines ["steve,100,1"].

(** Log in as the only account, enter the mine and dig once: the dig
    finds nothing (50) and the hunger event (1) costs 10 health. *)
Lemma main_session_ok_witness :
  main (Some steve_file) None (mkTape [50; 1; 70]) ["1"; "1"; "1"; "1"] =
    Ok (Returns (mkSession (Playing 0 (InMine MiningMain))
                   [set_health 90 (new create_empty (new_account "steve"))]
                   (mkTape []) (Some steve_file) None)) /\
  session_ok (mkSession (Playing 0 (InMine MiningMain))
                [set_health 90 (new create_empty (new_account "steve"))]
                (mkTape []) (Some steve_file) None).
Proof.
  split; [vm_compute; reflexivity |].
  eapply (main_session_ok (Some steve_file) None (mkTape [50; 1; 70]) ["1"; "1"; "1"; "1"]).
  vm_compute. reflexivity.
Defined.

Lemma registered_account_storable_witness :
  is_alphanumeric_string "steve2" = true /\
  storable (new_account "steve2") = true /\ char_free ";"%char "steve2" = true.
Proof. split; [reflexivity | apply registered_account_storable; reflexivity]. Defined.

Definition saved_session : Session Tape :=
  mkSession MainMenu [new create_empty (new_account "steve"); set_money 250 (new create_empty (new_account "alex"))]
    (mkTape []) None None.

Lemma save_reload_accounts_witness :
  Forall (fun p => storable (account p) = true) (roster saved_session) /\
  exists players,
    load_players (account_file (save saved_session)) (inventory_file (save saved_session)) = Ok players /\
    map account players = map account (roster saved_session) /\
    Forall (fun p => health p = 100 /\ depth p = 1) players.
Proof.
  assert (H : Forall (fun p => storable (account p) = true) (roster saved_session))
    by (repeat constructor).
  split; [exact H | apply save_reload_accounts, H].
Defined.

Lemma register_accepts_empty_name_witness :
  (screen (mkSession RegisterName [] (mkTape []) None None) = RegisterName /\ trim "  " = EmptyString) /\
  exists s', session_step (mkSession RegisterName [] (mkTape []) None None) "  " = Returns s' /\
    screen s' = RegisterWait /\
    roster s' = roster (mkSession RegisterName [] (mkTape []) None None) ++ [new create_empty (new_account "")] /\
    session_step s' "" = Returns (save s').
Proof.
  split; [split; reflexivity |].
  apply (register_accepts_empty_name (mkSession RegisterName [] (mkTape []) None None) "  " ""); reflexivity.
Defined.
